(** * laser_merger2: scan and point-cloud fusion

    A shallow embedding of [src/laser_merger2.cpp].  The node buffers the
    latest LaserScan / PointCloud2 message of every source frame, and a
    worker thread periodically converts the buffered messages to points of
    the target frame, concatenates them and publishes the result twice: as a
    point cloud ([ConvertPointCloud2]) and as a synthetic planar scan
    ([ConvertLaserScan]).

    Conventions of the embedding.
    - A C++ [double] is a primitive binary64 [float]; the comparison
      operators are the IEEE ones ([<?], [<=?]), false on NaN.
    - The fields of [sensor_msgs::msg::LaserScan] and the channels of
      [sensor_msgs::msg::PointCloud2] are single precision.  A value stored
      in a message goes through [narrow] (round to single, read back as a
      double); single precision arithmetic is the double operation followed
      by [narrow].
    - [libm], tf2 and pcl_ros are not part of the repository: their
      functions are the fields of the [Platform] class.  The two functions
      of sensor_msgs that can fail, the constructor of a PointCloud2
      iterator and [setPointCloud2Fields], are modelled with their failure.
    - A function that can leave the defined behaviour of C++ (an index
      outside a vector, a floating value converted to an integer type that
      cannot hold it) or throw returns a [result]. *)

From Stdlib Require Import ZArith Floats Uint63 Lia.
From stdpp Require Import list strings sorting.

Set Warnings "-inexact-float".

(* ================================================================== *)
(** * Results of partial operations *)

Inductive exception : Type :=
  | bad_optional_access    (* std::optional<T>::value() on an empty optional *)
  | runtime_error.         (* std::runtime_error, of a PointCloud2 iterator *)

Inductive result (A : Type) : Type :=
  | Ok (a : A)
  | Throw (e : exception)
  | Undefined.             (* undefined behaviour *)
Arguments Ok {A} a.
Arguments Throw {A} e.
Arguments Undefined {A}.

Definition rbind {A B} (m : result A) (k : A -> result B) : result B :=
  match m with
  | Ok a => k a
  | Throw e => Throw e
  | Undefined => Undefined
  end.

Declare Scope result_scope.
Delimit Scope result_scope with result.
Notation "'let*' x ':=' m 'in' k" := (rbind m (fun x => k))
  (at level 10, x pattern, m at level 100, k at level 200) : result_scope.
Open Scope result_scope.

(** The loop [for (i = 0; i < v.size(); i++) body(v[i])] over a state. *)
Fixpoint for_each {S A} (body : S -> A -> result S) (s : S) (v : list A)
  : result S :=
  match v with
  | [] => Ok s
  | a :: v' => let* s' := body s a in for_each body s' v'
  end.

(** [traverse f v]: [f] on every element in order, stopping at the first
    failure. *)
Fixpoint traverse {A B} (f : A -> result B) (v : list A) : result (list B) :=
  match v with
  | [] => Ok []
  | a :: v' => let* b := f a in let* bs := traverse f v' in Ok (b :: bs)
  end.

(* ================================================================== *)
(** * Double precision values *)

Module Fp.

Abbreviation double := float.

(** The C++ relational operators on doubles. *)
Definition lt (a b : double) : bool := (a <? b)%float.
Definition gt (a b : double) : bool := (b <? a)%float.
Definition le (a b : double) : bool := (a <=? b)%float.
Definition ge (a b : double) : bool := (b <=? a)%float.
#[global] Arguments lt : simpl never.
#[global] Arguments gt : simpl never.
#[global] Arguments le : simpl never.
#[global] Arguments ge : simpl never.

(** The integer [m * 2^e], rounded towards minus infinity. *)
Definition scale (m e : Z) : Z := Z.shiftl m e.

(** [trunc x]: the integral part of [x], as the conversion of a floating
    value to an integer type takes it; nothing for NaN and infinities. *)
Definition trunc (x : double) : option Z :=
  match Prim2SF x with
  | S754_zero _ => Some 0%Z
  | S754_finite s m e =>
      Some (if s then - scale (Z.pos m) e else scale (Z.pos m) e)%Z
  | S754_infinity _ | S754_nan => None
  end.

(** [ceil x]: the integer value of [std::ceil(x)]. *)
Definition ceil (x : double) : option Z :=
  match Prim2SF x with
  | S754_zero _ => Some 0%Z
  | S754_finite s m e =>
      Some (if s then - scale (Z.pos m) e else - scale (Z.neg m) e)%Z
  | S754_infinity _ | S754_nan => None
  end.

(** Conversion of an integral value to [int] and to [uint32_t]: undefined
    when the value is not representable. *)
Definition to_int (v : option Z) : result Z :=
  match v with
  | Some z =>
      if ((- 2 ^ 31 <=? z) && (z <? 2 ^ 31))%Z then Ok z else Undefined
  | None => Undefined
  end.

Definition to_uint32 (v : option Z) : result nat :=
  match v with
  | Some z =>
      if ((0 <=? z) && (z <? 2 ^ 32))%Z then Ok (Z.to_nat z) else Undefined
  | None => Undefined
  end.

(** [size_t] to [double]. *)
Definition of_nat (i : nat) : double := of_uint63 (Uint63.of_Z (Z.of_nat i)).

(** Round to nearest single precision value, read back as a double. *)
Definition round32 (x : spec_float) : spec_float :=
  match x with
  | S754_finite s m e => binary_round 24 128 s m e
  | _ => x
  end.

Definition narrow32 (x : double) : double := SF2Prim (round32 (Prim2SF x)).

(** Two doubles hold the same value: they are identical, or they compare
    equal with [==] (which identifies the two zeros). *)
Definition same (a b : double) : Prop := a = b \/ (a =? b)%float = true.

End Fp.

Abbreviation double := float.

(* ================================================================== *)
(** * Messages and points *)

Record Time := { sec : Z; nanosec : Z }.

Record Header := { stamp : Time; frame_id : string }.

(** sensor_msgs/msg/LaserScan; every floating field is single precision. *)
Record LaserScan := {
  scan_header : Header;
  angle_min : double;
  angle_max : double;
  angle_increment : double;
  time_increment : double;
  scan_time : double;
  range_min : double;
  range_max : double;
  ranges : list double;
  intensities : list double
}.

(** One point of a PointCloud2 as the x, y, z and intensity iterators read
    it; [c_intensity] is meaningful only when the cloud declares the field. *)
Record CloudPoint := {
  c_x : double; c_y : double; c_z : double; c_intensity : double
}.

(** sensor_msgs/msg/PointCloud2, by field names and rows. *)
Record PointCloud2 := {
  cloud_header : Header;
  height : nat;
  width : nat;
  fields : list string;
  cloud_points : list CloudPoint
}.

Record Vector3 := { v_x : double; v_y : double; v_z : double }.
Record Quaternion := { q_x : double; q_y : double; q_z : double; q_w : double }.

(** geometry_msgs/msg/TransformStamped, the part the node reads. *)
Record TransformStamped := { translation : Vector3; rotation : Quaternion }.

(** SCAN_POINT_t. *)
Record SCAN_POINT_t := {
  x : double;
  y : double;
  z : double;
  intensity : option double
}.

(** [std::optional::value()]. *)
Definition value {A} (o : option A) : result A :=
  match o with
  | Some a => Ok a
  | None => Throw bad_optional_access
  end.

(** [std::optional::has_value()]. *)
Definition has_value {A} (o : option A) : bool :=
  match o with Some _ => true | None => false end.

(** [v[i]] and [v[i] = a] on a std::vector, with an [int] index: the index is
    converted to [size_t], so a negative one is out of range as well. *)
Definition vec_get {A} (v : list A) (i : Z) : result A :=
  if (i <? 0)%Z then Undefined
  else match v !! Z.to_nat i with
       | Some a => Ok a
       | None => Undefined
       end.

Definition vec_set {A} (v : list A) (i : Z) (a : A) : result (list A) :=
  if ((0 <=? i) && (i <? Z.of_nat (length v)))%Z
  then Ok (<[Z.to_nat i := a]> v)
  else Undefined.

(** The constructor of [sensor_msgs::PointCloud2Iterator<float>] and of
    [PointCloud2ConstIterator<float>] on a cloud with the fields
    [cloud_fields]: it throws [std::runtime_error] when the cloud has no
    field of that name. *)
Definition iterator_for (cloud_fields : list string) (name : string)
  : result unit :=
  if bool_decide (name ∈ cloud_fields) then Ok tt else Throw runtime_error.

(** [sensor_msgs::PointCloud2Modifier::setPointCloud2Fields(n_fields, ...)]:
    a variadic function that reads [n_fields] triplets (name, count,
    datatype) with [va_arg] and makes them the fields of the cloud.  [names]
    are the names of the triplets that the call passes; reading a triplet
    that was not passed is undefined. *)
Definition setPointCloud2Fields (n_fields : nat) (names : list string)
  : result (list string) :=
  if Nat.leb n_fields (length names) then Ok (take n_fields names)
  else Undefined.

(* ================================================================== *)
(** * The libraries the node is linked with *)

(** The state of the tf2 buffer: what [lookupTransform target source] gives;
    [None] stands for a [tf2::TransformException]. *)
Definition TfBuffer := string -> string -> option TransformStamped.

Class Platform := {
  (* libm *)
  hypot : double -> double -> double;
  atan2 : double -> double -> double;
  cos : double -> double;
  sin : double -> double;
  (* double to float to double *)
  narrow : double -> double;
  (* tf2::Matrix3x3(q).getRPY(roll, pitch, yaw), the yaw *)
  getRPY_yaw : Quaternion -> double;
  (* pcl_ros::transformPointCloud(target, in, out, tf); None: it returned false *)
  transformPointCloud : string -> PointCloud2 -> TfBuffer -> option PointCloud2
}.

(* ================================================================== *)
(** * The node *)

(** [std::map<std::string, T>]: the entries in increasing key order, which is
    the order a range-for visits them in. *)
Definition buffer (T : Type) := list (string * T).

(** [m[k] = v]. *)
Fixpoint buffer_put {T} (k : string) (v : T) (m : buffer T) : buffer T :=
  match m with
  | [] => [(k, v)]
  | (k', v') :: m' =>
      match String.compare k k' with
      | Lt => (k, v) :: m
      | Eq => (k, v) :: m'
      | Gt => (k', v') :: buffer_put k v m'
      end
  end.

Record laser_merger2 := {
  (* parameters *)
  target_frame_ : string;
  max_range : double;
  min_range : double;
  max_angle : double;
  min_angle : double;
  scan_time_ : double;
  angle_increment_ : double;
  inf_epsilon : double;
  use_inf : bool;
  (* state *)
  tf2_ : TfBuffer;
  laserTime : Time;
  scanBuffer : buffer LaserScan;
  pointCloudBuffer : buffer PointCloud2
}.

Definition M_PI : double := 0x1.921fb54442d18p+1%float.

(** The node as the constructor leaves it when no parameter is overridden. *)
Definition default_node (tf : TfBuffer) : laser_merger2 := {|
  target_frame_ := "base_link";
  max_range := 30.0;
  min_range := 0.06;
  max_angle := 3.141592654;
  min_angle := -3.141592654;
  scan_time_ := 1.0 / 30.0;
  angle_increment_ := M_PI / 180.0;
  inf_epsilon := 1.0;
  use_inf := true;
  tf2_ := tf;
  laserTime := {| sec := 0; nanosec := 0 |};
  scanBuffer := [];
  pointCloudBuffer := []
|}.

(** What the worker thread and the callbacks do that another thread or a
    subscriber can observe, in program order. *)
Inductive event : Type :=
  | EvLock                                (* nodeMutex_ acquired *)
  | EvUnlock                              (* nodeMutex_ released *)
  | EvScanToPoints (frame : string)       (* scantoPointXYZ ran *)
  | EvCloudToPoints (frame : string)      (* pointCloudtoPointXYZ ran *)
  | EvPublishCloud (msg : PointCloud2)    (* pclPub_->publish *)
  | EvPublishScan (msg : LaserScan)       (* scanPub_->publish *)
  | EvSleep.                              (* rosRate->sleep *)

Definition set_laserTime (t : Time) (n : laser_merger2) : laser_merger2 :=
  {| target_frame_ := target_frame_ n; max_range := max_range n;
     min_range := min_range n; max_angle := max_angle n;
     min_angle := min_angle n; scan_time_ := scan_time_ n;
     angle_increment_ := angle_increment_ n; inf_epsilon := inf_epsilon n;
     use_inf := use_inf n; tf2_ := tf2_ n;
     laserTime := t;
     scanBuffer := scanBuffer n; pointCloudBuffer := pointCloudBuffer n |}.

Definition set_scanBuffer (b : buffer LaserScan) (n : laser_merger2)
  : laser_merger2 :=
  {| target_frame_ := target_frame_ n; max_range := max_range n;
     min_range := min_range n; max_angle := max_angle n;
     min_angle := min_angle n; scan_time_ := scan_time_ n;
     angle_increment_ := angle_increment_ n; inf_epsilon := inf_epsilon n;
     use_inf := use_inf n; tf2_ := tf2_ n;
     laserTime := laserTime n;
     scanBuffer := b; pointCloudBuffer := pointCloudBuffer n |}.

Definition set_pointCloudBuffer (b : buffer PointCloud2) (n : laser_merger2)
  : laser_merger2 :=
  {| target_frame_ := target_frame_ n; max_range := max_range n;
     min_range := min_range n; max_angle := max_angle n;
     min_angle := min_angle n; scan_time_ := scan_time_ n;
     angle_increment_ := angle_increment_ n; inf_epsilon := inf_epsilon n;
     use_inf := use_inf n; tf2_ := tf2_ n;
     laserTime := laserTime n;
     scanBuffer := scanBuffer n; pointCloudBuffer := b |}.

(** A computation of the node: the events it emits, in order, and how it
    ends.  The events emitted before a failure stay observable. *)
Definition M (A : Type) : Type := list event * result A.

Definition ret {A} (a : A) : M A := ([], Ok a).
Definition emit (e : event) : M unit := ([e], Ok tt).
Definition lift {A} (r : result A) : M A := ([], r).
Definition bind {A B} (m : M A) (k : A -> M B) : M B :=
  match m with
  | (ev, Ok a) => let '(ev', r) := k a in (ev ++ ev', r)
  | (ev, Throw e) => (ev, Throw e)
  | (ev, Undefined) => (ev, Undefined)
  end.

Notation "'do*' x ':=' m 'in' k" := (bind m (fun x => k))
  (at level 10, x pattern, m at level 100, k at level 200) : result_scope.
Notation "m ';;' k" := (bind m (fun _ => k))
  (at level 100, k at level 200, right associativity) : result_scope.

(** ** Callbacks (lines 95-109) *)

Definition scanCallback (scan : LaserScan) (n : laser_merger2)
  : laser_merger2 * list event :=
  let n1 := set_laserTime (stamp (scan_header scan)) n in
  let n2 := set_scanBuffer
              (buffer_put (frame_id (scan_header scan)) scan (scanBuffer n1)) n1 in
  (n2, [EvLock; EvUnlock]).

Definition pointCloudCallback (cloud : PointCloud2) (n : laser_merger2)
  : laser_merger2 * list event :=
  let n1 := set_laserTime (stamp (cloud_header cloud)) n in
  let n2 := set_pointCloudBuffer
              (buffer_put (frame_id (cloud_header cloud)) cloud
                 (pointCloudBuffer n1)) n1 in
  (n2, [EvLock; EvUnlock]).

(* ================================================================== *)
(** * Geometry (lines 111-148) *)

Definition Vector4d : Type := double * double * double * double.
Definition Matrix4d : Type := Vector4d * Vector4d * Vector4d * Vector4d.

Definition dot (r c : Vector4d) : double :=
  let '(r0, r1, r2, r3) := r in
  let '(c0, c1, c2, c3) := c in
  (r0 * c0 + r1 * c1 + r2 * c2 + r3 * c3)%float.

Definition col (m : Matrix4d) (j : nat) : Vector4d :=
  let pick (r : Vector4d) :=
    let '(a, b, c, d) := r in
    match j with 0 => a | 1 => b | 2 => c | _ => d end in
  let '(r0, r1, r2, r3) := m in (pick r0, pick r1, pick r2, pick r3).

(** Matrix by column vector, and matrix by matrix: the products of
    [T * Rotate3Z(..) * scanRange], taken from left to right, every entry
    as the sum of its four terms in index order. *)
Definition mat_vec (m : Matrix4d) (v : Vector4d) : Vector4d :=
  let '(r0, r1, r2, r3) := m in (dot r0 v, dot r1 v, dot r2 v, dot r3 v).

Definition mat_mul (a b : Matrix4d) : Matrix4d :=
  let row (r : Vector4d) :=
    (dot r (col b 0), dot r (col b 1), dot r (col b 2), dot r (col b 3)) in
  let '(r0, r1, r2, r3) := a in (row r0, row r1, row r2, row r3).

Section Node.
Context `{P : Platform}.

Definition Rotate3Z (rad : double) : Matrix4d :=
  ((cos rad,  (-1 * sin rad)%float, 0%float, 0%float),
   (sin rad,  cos rad,              0%float, 0%float),
   (0%float,  0%float,              1%float, 0%float),
   (0%float,  0%float,              0%float, 1%float)).

Definition ConvertTransMatrix (trans : TransformStamped) : Matrix4d :=
  let yaw := getRPY_yaw (rotation trans) in
  ((cos yaw,  (-1 * sin yaw)%float, 0%float, v_x (translation trans)),
   (sin yaw,  cos yaw,              0%float, v_y (translation trans)),
   (0%float,  0%float,              1%float, v_z (translation trans)),
   (0%float,  0%float,              0%float, 1%float)).

(** ** scantoPointXYZ (lines 150-188) *)

(** Single precision [a + i * b], as [scan->angle_min + i *
    scan->angle_increment] is evaluated. *)
Definition bearing (scan : LaserScan) (i : nat) : double :=
  narrow (angle_min scan
          + narrow (narrow (Fp.of_nat i) * angle_increment scan))%float.

(** The body of the loop over the samples (lines 170-184): [None] is the
    [continue]. *)
Definition scan_sample (T : Matrix4d) (scan : LaserScan)
    (has_intensity : bool) (i : nat) (r : double) : option SCAN_POINT_t :=
  if Fp.le r (range_min scan) || Fp.ge r (range_max scan) then None
  else
    let scanRange : Vector4d := (r, 0%float, 0%float, 1%float) in
    let '(px, py, pz, _) :=
      mat_vec (mat_mul T (Rotate3Z (bearing scan i))) scanRange in
    Some {| x := px; y := py; z := pz;
            intensity := if has_intensity
                         then intensities scan !! i else None |}.

Definition scantoPointXYZ (n : laser_merger2) (scan : LaserScan)
  : list SCAN_POINT_t :=
  match tf2_ n (target_frame_ n) (frame_id (scan_header scan)) with
  | None => []
  | Some sensorToBase =>
      let T := ConvertTransMatrix sensorToBase in
      let has_intensity :=
        Nat.eqb (length (intensities scan)) (length (ranges scan)) in
      omap (fun '(i, r) => scan_sample T scan has_intensity i r)
           (imap (fun i r => (i, r)) (ranges scan))
  end.

(** ** pointCloudtoPointXYZ (lines 190-224) *)

(** The four iterators are built on the transformed cloud, the intensity
    iterator (line 207) whether or not the cloud has the field: a cloud
    without one of the four fields makes the function throw.  The x, y and z
    iterators walk the transformed cloud; the intensity iterator is read only
    when the cloud that arrived declares the field. *)

Definition pointCloudtoPointXYZ (n : laser_merger2) (cloud : PointCloud2)
  : result (list SCAN_POINT_t) :=
  match transformPointCloud (target_frame_ n) cloud (tf2_ n) with
  | None => Ok []
  | Some transformed_cloud =>
      let* _ := iterator_for (fields transformed_cloud) "x" in
      let* _ := iterator_for (fields transformed_cloud) "y" in
      let* _ := iterator_for (fields transformed_cloud) "z" in
      let has_intensity :=
        bool_decide ("intensity" ∈ fields cloud) in
      let* _ := iterator_for (fields transformed_cloud) "intensity" in
      Ok ((fun c => {| x := c_x c; y := c_y c; z := c_z c;
                       intensity := if has_intensity
                                    then Some (c_intensity c) else None |})
            <$> cloud_points transformed_cloud)
  end.

(** ** ConvertPointCloud2 (lines 231-285) *)

(** The body of the loop that fills the cloud (lines 270-281).  The
    iterators write single precision values; the intensity iterator writes
    only when the first point carries an intensity. *)
Definition cloud_point (has_intensity : bool) (p : SCAN_POINT_t)
  : result CloudPoint :=
  let* i := if has_intensity then value (intensity p) else Ok 0%float in
  Ok {| c_x := narrow (x p); c_y := narrow (y p); c_z := narrow (z p);
        c_intensity := if has_intensity then narrow i else 0%float |}.

Definition ConvertPointCloud2 (n : laser_merger2)
    (points : list SCAN_POINT_t) : M unit :=
  match points with
  | [] => ret tt
  | p0 :: _ =>
      let has_intensity := has_value (intensity p0) in
      do* (names, rows) := lift (
        (* lines 246-259: both calls announce four fields *)
        let* names :=
          if has_intensity
          then setPointCloud2Fields 4 ["x"; "y"; "z"; "intensity"]
          else setPointCloud2Fields 4 ["x"; "y"; "z"] in
        (* lines 261-264 *)
        let* _ := iterator_for names "x" in
        let* _ := iterator_for names "y" in
        let* _ := iterator_for names "z" in
        let* _ := iterator_for names "intensity" in
        let* rows := traverse (cloud_point has_intensity) points in
        Ok (names, rows)) in
      emit (EvPublishCloud {|
        cloud_header := {| stamp := laserTime n;
                           frame_id := target_frame_ n |};
        height := 1;
        width := length points;
        fields := names;
        cloud_points := rows |})
  end.

(** ** ConvertLaserScan (lines 287-337) *)

Definition set_ranges (v : list double) (m : LaserScan) : LaserScan :=
  {| scan_header := scan_header m; angle_min := angle_min m;
     angle_max := angle_max m; angle_increment := angle_increment m;
     time_increment := time_increment m; scan_time := scan_time m;
     range_min := range_min m; range_max := range_max m;
     ranges := v; intensities := intensities m |}.

Definition set_intensities (v : list double) (m : LaserScan) : LaserScan :=
  {| scan_header := scan_header m; angle_min := angle_min m;
     angle_max := angle_max m; angle_increment := angle_increment m;
     time_increment := time_increment m; scan_time := scan_time m;
     range_min := range_min m; range_max := range_max m;
     ranges := ranges m; intensities := v |}.

(** The test of line 321: the point is skipped. *)
Definition out_of_view (n : laser_merger2) (scan_msg : LaserScan)
    (range angle : double) : bool :=
  Fp.lt range (min_range n) || Fp.gt range (max_range n)
  || Fp.lt angle (angle_min scan_msg) || Fp.gt angle (angle_max scan_msg).

(** [int index = (angle - angle_min) / angle_increment] (line 326). *)
Definition bin_index (scan_msg : LaserScan) (angle : double) : result Z :=
  Fp.to_int
    (Fp.trunc ((angle - angle_min scan_msg) / angle_increment scan_msg)%float).

(** The body of the loop over the points (lines 319-333). *)
Definition project_point (n : laser_merger2) (has_intensity : bool)
    (scan_msg : LaserScan) (p : SCAN_POINT_t) : result LaserScan :=
  let range := hypot (x p) (y p) in
  let angle := atan2 (y p) (x p) in
  if out_of_view n scan_msg range angle then Ok scan_msg
  else
    let* index := bin_index scan_msg angle in
    let* cell := vec_get (ranges scan_msg) index in
    let* scan_msg :=
      if Fp.lt range cell
      then let* v := vec_set (ranges scan_msg) index (narrow range) in
           Ok (set_ranges v scan_msg)
      else Ok scan_msg in
    if has_intensity
    then let* i := value (intensity p) in
         let* v := vec_set (intensities scan_msg) index (narrow i) in
         Ok (set_intensities v scan_msg)
    else Ok scan_msg.

(** [uint32_t ranges_size = std::ceil((angle_max - angle_min) /
    angle_increment)] on the single precision fields of the message. *)
Definition ranges_size (scan_msg : LaserScan) : result nat :=
  Fp.to_uint32
    (Fp.ceil (narrow (narrow (angle_max scan_msg - angle_min scan_msg)
                      / angle_increment scan_msg))%float).

(** The message before the loop (lines 292-315). *)
Definition empty_scan (n : laser_merger2) (has_intensity : bool)
  : result LaserScan :=
  let scan_msg := {|
    scan_header := {| stamp := laserTime n; frame_id := target_frame_ n |};
    angle_min := narrow (min_angle n);
    angle_max := narrow (max_angle n);
    angle_increment := narrow (angle_increment_ n);
    time_increment := narrow 0.0;
    scan_time := narrow (scan_time_ n);
    range_min := narrow (min_range n);
    range_max := narrow (max_range n);
    ranges := [];
    intensities := [] |} in
  let* size := ranges_size scan_msg in
  let scan_msg :=
    if use_inf n
    then set_ranges (replicate size (narrow infinity)) scan_msg
    else set_ranges
           (replicate size (narrow (range_max scan_msg + inf_epsilon n)%float))
           scan_msg in
  Ok (if has_intensity
      then set_intensities (replicate size 0%float) scan_msg
      else scan_msg).

Definition ConvertLaserScan (n : laser_merger2)
    (points : list SCAN_POINT_t) : M unit :=
  match points with
  | [] => ret tt
  | p0 :: _ =>
      let has_intensity := has_value (intensity p0) in
      do* scan_msg := lift (let* scan_msg := empty_scan n has_intensity in
                            for_each (project_point n has_intensity)
                              scan_msg points) in
      emit (EvPublishScan scan_msg)
  end.

(** ** laser_merge (lines 339-375) *)

(** A range-for over a buffer that appends what [convert] returns for
    every entry to [points]; a conversion that throws ends the loop. *)
Fixpoint convert_all {T} (tag : string -> event)
    (convert : T -> result (list SCAN_POINT_t)) (b : buffer T)
    (points : list SCAN_POINT_t) : M (list SCAN_POINT_t) :=
  match b with
  | [] => ret points
  | (k, msg) :: b' =>
      emit (tag k) ;;
      do* converted := lift (convert msg) in
      convert_all tag convert b' (points ++ converted)
  end.

(** The block under the lock (lines 347-364): both buffers are converted
    and cleared.  Nothing in the worker thread catches an exception: one
    that is thrown inside the block ends the thread, and the process, there
    (whether the lock is released on the way is left to the implementation),
    so the trace stops at the conversion that threw. *)
Definition drain (n : laser_merger2)
  : M (list SCAN_POINT_t * laser_merger2) :=
  let points := [] in
  emit EvLock ;;
  do* points := convert_all EvScanToPoints
                  (fun scan => Ok (scantoPointXYZ n scan))
                  (scanBuffer n) points in
  let n := set_scanBuffer [] n in
  do* points := convert_all EvCloudToPoints (pointCloudtoPointXYZ n)
                  (pointCloudBuffer n) points in
  let n := set_pointCloudBuffer [] n in
  emit EvUnlock ;;
  ret (points, n).

(** Lines 366-370. *)
Definition publish_points (n : laser_merger2) (points : list SCAN_POINT_t)
  : M unit :=
  match points with
  | [] => ret tt
  | _ :: _ => ConvertPointCloud2 n points ;; ConvertLaserScan n points
  end.

(** One turn of the [while] loop. *)
Definition laser_merge_cycle (n : laser_merger2) : M laser_merger2 :=
  do* (points, n) := drain n in
  publish_points n points ;;
  emit EvSleep ;;
  ret n.

(** The loop, for as long as [rclcpp::ok(context) && alive_] holds: here
    for [turns] turns. *)
Fixpoint laser_merge (turns : nat) (n : laser_merger2) : M laser_merger2 :=
  match turns with
  | 0 => ret n
  | S turns' => do* n' := laser_merge_cycle n in laser_merge turns' n'
  end.

End Node.

(* ================================================================== *)
(** * A platform to run the model on *)

(** Numerical stand-ins for the library functions, exact at the arguments
    the examples below use (points on the axes, bearing 0, the identity
    rotation) and close to the mathematical function elsewhere.  The
    theorems hold for every [Platform]; these definitions only serve to
    evaluate the model on concrete inputs. *)
Module Ref.
#[local] Open Scope float_scope.

(** [sum_{k < terms} (-1)^k t^(2k+i) / (2k+i)!], from [term = t^i / i!]. *)
Fixpoint alternating (terms : nat) (t2 term : double) (i : nat) : double :=
  match terms with
  | 0 => 0%float
  | S terms' =>
      (term + alternating terms'
                t2 (- term * t2 / (Fp.of_nat (i + 1) * Fp.of_nat (i + 2)))
                (i + 2))%float
  end.

Definition cos (t : double) : double := alternating 16 (t * t) 1 0.
Definition sin (t : double) : double := alternating 16 (t * t) t 1.

Definition hypot (a b : double) : double := PrimFloat.sqrt (a * a + b * b).

(** [sum_{k < terms} (-1)^k t^(2k+1) / (2k+1)]. *)
Fixpoint atan_series (terms : nat) (t2 pow : double) (i : nat) : double :=
  match terms with
  | 0 => 0%float
  | S terms' =>
      (pow / Fp.of_nat i
       + atan_series terms' t2 (- pow * t2) (i + 2))%float
  end.

Definition half_angle (t : double) : double := (t / (1 + PrimFloat.sqrt (1 + t * t)))%float.

(** The arc tangent on [-1, 1]. *)
Definition atan_unit (t : double) : double :=
  let u := half_angle (half_angle t) in
  (4 * atan_series 12 (u * u) u 1)%float.

Definition atan2 (b a : double) : double :=
  if (b =? 0)%float then
    (if (a <? 0)%float then (if get_sign b then - M_PI else M_PI)
     else if (a =? a)%float then b else nan)%float
  else if (a =? 0)%float then
    (if (b <? 0)%float then - (M_PI / 2) else M_PI / 2)%float
  else if (PrimFloat.abs b <=? PrimFloat.abs a)%float then
    (if (0 <? a)%float then atan_unit (b / a)
     else if (0 <? b)%float then atan_unit (b / a) + M_PI
     else atan_unit (b / a) - M_PI)%float
  else
    (if (0 <? b)%float then M_PI / 2 - atan_unit (a / b)
     else - (M_PI / 2) - atan_unit (a / b))%float.

Definition getRPY_yaw (q : Quaternion) : double :=
  atan2 (2 * (q_w q * q_z q + q_x q * q_y q))
        (1 - 2 * (q_y q * q_y q + q_z q * q_z q))%float.

(** A transform of clouds that knows the identity only. *)
Definition transformPointCloud (target : string) (cloud : PointCloud2)
    (tf : TfBuffer) : option PointCloud2 :=
  if String.eqb target (frame_id (cloud_header cloud)) then Some cloud
  else None.

End Ref.

(** Single precision messages, as on the robot. *)
Definition robot : Platform := {|
  hypot := Ref.hypot; atan2 := Ref.atan2; cos := Ref.cos; sin := Ref.sin;
  narrow := Fp.narrow32;
  getRPY_yaw := Ref.getRPY_yaw;
  transformPointCloud := Ref.transformPointCloud
|}.

(** Messages that keep doubles unchanged, which is how the specification
    reads the code. *)
Definition ideal : Platform := {|
  hypot := Ref.hypot; atan2 := Ref.atan2; cos := Ref.cos; sin := Ref.sin;
  narrow := fun v => v;
  getRPY_yaw := Ref.getRPY_yaw;
  transformPointCloud := Ref.transformPointCloud
|}.

(* ================================================================== *)
(** * Observations on a trace *)

Definition is_publish (e : event) : bool :=
  match e with
  | EvPublishCloud _ | EvPublishScan _ => true
  | _ => false
  end.




(* ================================================================== *)
(** * Concrete inputs *)

Module Examples.

Definition pt (a b c : double) (i : option double) : SCAN_POINT_t :=
  {| x := a; y := b; z := c; intensity := i |}.

Definition no_tf : TfBuffer := fun _ _ => None.

Definition identity : TransformStamped := {|
  translation := {| v_x := 0; v_y := 0; v_z := 0 |};
  rotation := {| q_x := 0; q_y := 0; q_z := 0; q_w := 1 |}
|}.

(** Every frame is at the origin of the target frame, except ["lost"],
    which tf2 does not know. *)
Definition tf_but_lost : TfBuffer := fun target source =>
  if String.eqb source "lost" then None else Some identity.

(** The default node with another angular window. *)
Definition window (lo hi step : double) : laser_merger2 := {|
  target_frame_ := "base_link";
  max_range := 30.0; min_range := 0.06;
  max_angle := hi; min_angle := lo;
  scan_time_ := 1.0 / 30.0;
  angle_increment_ := step;
  inf_epsilon := 1.0; use_inf := true;
  tf2_ := no_tf;
  laserTime := {| sec := 0; nanosec := 0 |};
  scanBuffer := []; pointCloudBuffer := []
|}.

(** A scan of frame [frame] that starts at bearing 0. *)
Definition scan_of (frame : string) (rs ints : list double) : LaserScan := {|
  scan_header := {| stamp := {| sec := 1; nanosec := 0 |};
                    frame_id := frame |};
  angle_min := 0; angle_max := 1; angle_increment := 0.25;
  time_increment := 0; scan_time := 0.125;
  range_min := Fp.narrow32 0.06; range_max := 30;
  ranges := rs; intensities := ints
|}.

Definition with_scans (tf : TfBuffer) (scans : list LaserScan)
  : laser_merger2 :=
  foldl (fun n scan => fst (scanCallback scan n)) (default_node tf) scans.

(** A cloud of frame [frame] with the fields [names]. *)
Definition cloud_of (frame : string) (names : list string)
    (rows : list CloudPoint) : PointCloud2 := {|
  cloud_header := {| stamp := {| sec := 2; nanosec := 0 |};
                     frame_id := frame |};
  height := 1; width := length rows;
  fields := names;
  cloud_points := rows
|}.

(** The scan that [window (-1) 1 0.5] publishes, with its four bins. *)
Definition small_scan `{P : Platform} (rs ints : list double) : LaserScan := {|
  scan_header := {| stamp := {| sec := 0; nanosec := 0 |};
                    frame_id := "base_link" |};
  angle_min := narrow (-1); angle_max := narrow 1;
  angle_increment := narrow 0.5;
  time_increment := narrow 0; scan_time := narrow (1.0 / 30.0);
  range_min := narrow 0.06; range_max := narrow 30.0;
  ranges := rs; intensities := ints
|}.

End Examples.

(* ================================================================== *)
(** * Order of doubles *)

Module Order.

(** A key for every value but NaN: comparing two doubles is comparing
    their keys lexicographically. *)
Definition key (v : spec_float) : option (Z * Z * Z) :=
  match v with
  | S754_nan => None
  | S754_infinity true => Some (-2, 0, 0)%Z
  | S754_finite true m e => Some (-1, - e, Z.neg m)%Z
  | S754_zero _ => Some (0, 0, 0)%Z
  | S754_finite false m e => Some (1, e, Z.pos m)%Z
  | S754_infinity false => Some (2, 0, 0)%Z
  end.

Definition kcmp (a b : Z * Z * Z) : comparison :=
  let '(a1, a2, a3) := a in
  let '(b1, b2, b3) := b in
  match (a1 ?= b1)%Z with
  | Eq => match (a2 ?= b2)%Z with
          | Eq => (a3 ?= b3)%Z
          | c => c
          end
  | c => c
  end.

Definition klt (a b : Z * Z * Z) : Prop :=
  let '(a1, a2, a3) := a in
  let '(b1, b2, b3) := b in
  (a1 < b1 \/ (a1 = b1 /\ (a2 < b2 \/ (a2 = b2 /\ a3 < b3))))%Z.

Definition fkey (a : double) : option (Z * Z * Z) := key (Prim2SF a).

End Order.

(* ================================================================== *)
(** * What the scan projection does to one bin *)

Section Bins.
Context `{P : Platform}.

(** The range of a bin after a point of range [r] fell into it (lines
    327-330). *)
Definition cell_step (c r : double) : double :=
  if Fp.lt r c then narrow r else c.

(** The bin a point is written to, with the range of the point: nothing
    when line 321 skips the point. *)
Definition target (n : laser_merger2) (scan_msg : LaserScan)
    (p : SCAN_POINT_t) : option (nat * double) :=
  let range := hypot (x p) (y p) in
  let angle := atan2 (y p) (x p) in
  if out_of_view n scan_msg range angle then None
  else match bin_index scan_msg angle with
       | Ok i => if (0 <=? i)%Z then Some (Z.to_nat i, range) else None
       | _ => None
       end.

Definition bin_min (rs : list double) (t : nat * double) : list double :=
  alter (fun c => cell_step c t.2) t.1 rs.

(** The points that are written to bin [b], in the order of the loop. *)
Definition bin_hits (n : laser_merger2) (scan_msg : LaserScan) (b : nat)
    (points : list SCAN_POINT_t) : list SCAN_POINT_t :=
  filter (fun p => fst <$> target n scan_msg p = Some b) points.

(** The fields of the message that the loop reads and never writes. *)
Definition same_geometry (m m' : LaserScan) : Prop :=
  angle_min m = angle_min m' /\ angle_max m = angle_max m'
  /\ angle_increment m = angle_increment m'.

(** A value that a single precision field can hold. *)
Definition single (c : double) : Prop := narrow c = c.

(** The value of the bins that no point fell into (lines 308-311). *)
Definition fill (n : laser_merger2) : double :=
  if use_inf n then narrow infinity
  else narrow (narrow (max_range n) + inf_epsilon n)%float.

(** The turn of the loop for [p] completes, on a message of [len] bins:
    the point is skipped, or its bin exists and, when intensities are
    written, the point has one. *)
Definition safe (n : laser_merger2) (scan_msg : LaserScan) (len : nat)
    (has_intensity : bool) (p : SCAN_POINT_t) : bool :=
  let range := hypot (x p) (y p) in
  let angle := atan2 (y p) (x p) in
  out_of_view n scan_msg range angle
  || match bin_index scan_msg angle with
     | Ok i => (0 <=? i)%Z && (i <? Z.of_nat len)%Z
               && (negb has_intensity || has_value (intensity p))
     | _ => false
     end.

(** [r] is the row of the cloud for the point [p]. *)
Definition row_of (p : SCAN_POINT_t) (r : CloudPoint) : Prop :=
  c_x r = narrow (x p) /\ c_y r = narrow (y p) /\ c_z r = narrow (z p).

(** Every point carries an intensity, or none does. *)
Definition uniform (points : list SCAN_POINT_t) : Prop :=
  forall p q, p ∈ points -> q ∈ points ->
    has_value (intensity p) = has_value (intensity q).

End Bins.

(* ================================================================== *)
(** * The rest of the node *)

(** [m.find(k)] on a buffer: the message stored for [k]. *)
Fixpoint buffer_get {T} (k : string) (m : buffer T) : option T :=
  match m with
  | [] => None
  | (k', v) :: m' => if String.eqb k k' then Some v else buffer_get k m'
  end.

(** The keys of a buffer increase strictly, as those of a [std::map] do. *)
Definition key_lt {T} (a b : string * T) : Prop :=
  String.compare a.1 b.1 = Lt.

Definition sorted_buffer {T} (m : buffer T) : Prop := StronglySorted key_lt m.

(** ** The subscriptions of the constructor (lines 55-83) *)

(** One of the two loops: a subscription for every topic whose name is not
    empty. *)
Definition subscribe (topics : list string) : list string :=
  filter (fun topic => topic <> "") topics.

Definition error_message : string :=
  "No topic was provided to read input laser scans or point clouds".

(** [laser_sub] and [point_cloud_sub] by topic name, or the message of the
    [std::runtime_error] that line 82 throws. *)
Definition create_subscriptions (scan_topics point_cloud_topics : list string)
  : string + (list string * list string) :=
  let laser_sub := subscribe scan_topics in
  let point_cloud_sub := subscribe point_cloud_topics in
  match laser_sub, point_cloud_sub with
  | [], [] => inl error_message
  | _, _ => inr (laser_sub, point_cloud_sub)
  end.

(** ** rgb_to_uint32 (lines 226-229) *)

(** The conversion of a value to [uint32_t], and a left shift in that type. *)
Definition uint32 (v : Z) : Z := v mod 2 ^ 32.
Definition shl32 (v n : Z) : Z := uint32 (Z.shiftl (uint32 v) n).

(** [r], [g] and [b] are [uint8_t] values. *)
Definition rgb_to_uint32 (r g b : Z) : Z :=
  Z.lor (Z.lor (shl32 r 16) (shl32 g 8)) (uint32 b).

(** The byte of [v] that starts at bit [n]. *)
Definition byte_at (v n : Z) : Z := Z.land (Z.shiftr v n) 255.

(** The point passes the test of line 321 on the message [scan_msg]. *)
Definition in_view `{P : Platform} (n : laser_merger2) (scan_msg : LaserScan)
    (p : SCAN_POINT_t) : bool :=
  negb (out_of_view n scan_msg (hypot (x p) (y p)) (atan2 (y p) (x p))).

(** The row of the cloud for a point, with its intensity when the cloud has
    the field. *)
Definition full_row_of `{P : Platform} (has_intensity : bool)
    (p : SCAN_POINT_t) (r : CloudPoint) : Prop :=
  row_of p r
  /\ (has_intensity = true -> Some (c_intensity r) = narrow <$> intensity p).

(* ================================================================== *)
(** * Facts about the order of doubles *)

Module OrderFacts.
Import Order.

Lemma SFcompare_key (u v : spec_float) :
  SFcompare u v =
    match key u, key v with
    | Some a, Some b => Some (kcmp a b)
    | _, _ => None
    end.
Proof.
  destruct u as [[]|[]| |[] m1 e1], v as [[]|[]| |[] m2 e2];
    cbn; try reflexivity.
  rewrite Z.compare_opp, Pos.compare_cont_spec; cbn.
  rewrite (Z.compare_antisym e1 e2), Pos.compare_antisym.
  destruct (e1 ?= e2)%Z; cbn; try reflexivity.
  now destruct (m2 ?= m1)%positive.
Qed.

Lemma kcmp_Lt a b : kcmp a b = Lt <-> klt a b.
Proof.
  destruct a as [[a1 a2] a3], b as [[b1 b2] b3]; cbn.
  destruct (Z.compare_spec a1 b1), (Z.compare_spec a2 b2),
    (Z.compare_spec a3 b3); split; intros;
    first [reflexivity | discriminate | lia].
Qed.

Lemma kcmp_Eq a b : kcmp a b = Eq <-> a = b.
Proof.
  destruct a as [[a1 a2] a3], b as [[b1 b2] b3]; cbn.
  destruct (Z.compare_spec a1 b1), (Z.compare_spec a2 b2),
    (Z.compare_spec a3 b3); split; intros H2; try discriminate;
    try (inversion H2; lia); subst; reflexivity.
Qed.

Lemma kcmp_Gt a b : kcmp a b = Gt <-> klt b a.
Proof.
  destruct a as [[a1 a2] a3], b as [[b1 b2] b3]; cbn.
  destruct (Z.compare_spec a1 b1), (Z.compare_spec a2 b2),
    (Z.compare_spec a3 b3); split; intros;
    first [reflexivity | discriminate | lia].
Qed.

Lemma kcmp_spec a b : CompareSpec (a = b) (klt a b) (klt b a) (kcmp a b).
Proof.
  destruct (kcmp a b) eqn:E; constructor.
  - now apply kcmp_Eq.
  - now apply kcmp_Lt.
  - now apply kcmp_Gt.
Qed.

Lemma lt_fkey a b :
  Fp.lt a b = match fkey a, fkey b with
              | Some u, Some v =>
                  match kcmp u v with Lt => true | _ => false end
              | _, _ => false
              end.
Proof.
  unfold Fp.lt, fkey. rewrite FloatAxioms.ltb_spec. unfold SFltb.
  rewrite SFcompare_key.
  now destruct (key (Prim2SF a)), (key (Prim2SF b)).
Qed.

Lemma le_fkey a b :
  Fp.le a b = match fkey a, fkey b with
              | Some u, Some v =>
                  match kcmp u v with Gt => false | _ => true end
              | _, _ => false
              end.
Proof.
  unfold Fp.le, fkey. rewrite FloatAxioms.leb_spec. unfold SFleb.
  rewrite SFcompare_key.
  destruct (key (Prim2SF a)) as [u|], (key (Prim2SF b)) as [v|];
    try reflexivity.
Qed.

Lemma eqb_fkey a b :
  (a =? b)%float = match fkey a, fkey b with
                   | Some u, Some v =>
                       match kcmp u v with Eq => true | _ => false end
                   | _, _ => false
                   end.
Proof.
  unfold fkey. rewrite FloatAxioms.eqb_spec. unfold SFeqb.
  rewrite SFcompare_key.
  now destruct (key (Prim2SF a)), (key (Prim2SF b)).
Qed.

(** Goals and hypotheses about comparisons of doubles, through the keys. *)
Ltac key_cases :=
  repeat match goal with
    | |- context [fkey ?a] =>
        let E := fresh "K" in destruct (fkey a) as [[[? ?] ?]|] eqn:E
    end;
  repeat match goal with
    | |- context [kcmp ?u ?v] => destruct (kcmp_spec u v)
    end.

Ltac fp_order :=
  unfold Fp.gt, Fp.ge in *;
  repeat match goal with
    | H : _ = true |- _ => revert H
    | H : _ = false |- _ => revert H
    end;
  change PrimFloat.ltb with Fp.lt;
  change PrimFloat.leb with Fp.le;
  rewrite ?lt_fkey, ?le_fkey, ?eqb_fkey;
  key_cases; unfold klt in *; intros; simplify_eq;
  first [reflexivity | discriminate | lia | tauto | idtac].

Lemma lt_irrefl a : Fp.lt a a = false.
Proof. fp_order. Qed.

Lemma lt_le a b : Fp.lt a b = true -> Fp.le a b = true.
Proof. intros H. fp_order. Qed.

Lemma lt_not_ge a b : Fp.lt a b = true -> Fp.le b a = false.
Proof. intros H. fp_order. Qed.

Lemma eqb_le a b : (a =? b)%float = true -> Fp.le a b = true.
Proof. intros H. fp_order. Qed.

Lemma eqb_ge a b : (a =? b)%float = true -> Fp.ge a b = true.
Proof. intros H. fp_order. Qed.

Lemma lt_le_trans a b c :
  Fp.lt a b = true -> Fp.le b c = true -> Fp.lt a c = true.
Proof. intros H1 H2. fp_order. Qed.

Lemma le_antisym a b :
  Fp.le a b = true -> Fp.le b a = true -> (a =? b)%float = true.
Proof. intros H1 H2. fp_order. Qed.

(** Two values that are not NaN are comparable. *)
Lemma not_lt_ge a b :
  (a =? a)%float = true -> (b =? b)%float = true ->
  Fp.lt a b = false -> Fp.le b a = true.
Proof. intros H1 H2 H3. fp_order. Qed.

Lemma le_not_nan a b :
  Fp.le a b = true -> (a =? a)%float = true /\ (b =? b)%float = true.
Proof. intros H. split; fp_order. Qed.

Lemma lt_not_nan a b :
  Fp.lt a b = true -> (a =? a)%float = true /\ (b =? b)%float = true.
Proof. intros H. split; fp_order. Qed.

Lemma same_refl a : Fp.same a a.
Proof. now left. Qed.

Lemma same_sym a b : Fp.same a b -> Fp.same b a.
Proof.
  intros [->|H]; [now left|right]. fp_order.
Qed.

Lemma same_trans a b c : Fp.same a b -> Fp.same b c -> Fp.same a c.
Proof.
  intros [->|H1] [->|H2]; try (now left); try (now right).
  right. fp_order.
Qed.

Lemma same_lt_r a c c' : Fp.same c c' -> Fp.lt a c = Fp.lt a c'.
Proof.
  intros [->|H]; [reflexivity|]. fp_order.
Qed.

End OrderFacts.

(* ================================================================== *)
(** * The loop of ConvertLaserScan, bin by bin *)

Section BinFacts.
Context `{P : Platform}.
Import OrderFacts.

Lemma same_geometry_refl m : same_geometry m m.
Proof. now repeat split. Qed.

Lemma same_geometry_trans m1 m2 m3 :
  same_geometry m1 m2 -> same_geometry m2 m3 -> same_geometry m1 m3.
Proof. unfold same_geometry. intuition congruence. Qed.

Lemma target_geometry n m m' p :
  same_geometry m m' -> target n m p = target n m' p.
Proof.
  intros (H1 & H2 & H3).
  unfold target, out_of_view, bin_index. now rewrite H1, H2, H3.
Qed.

Lemma bin_min_length rs t : length (bin_min rs t) = length rs.
Proof. apply length_alter. Qed.

(** What one turn of the loop does, when it completes. *)
Lemma project_point_Ok n hi m p m' :
  project_point n hi m p = Ok m' ->
  same_geometry m m' /\
  match target n m p with
  | None => m' = m
  | Some (i, r) =>
      i < length (ranges m) /\
      ranges m' = bin_min (ranges m) (i, r) /\
      if hi
      then exists v, intensity p = Some v /\ i < length (intensities m)
                     /\ intensities m' = <[i := narrow v]> (intensities m)
      else intensities m' = intensities m
  end.
Proof.
  unfold project_point, target.
  set (range := hypot (x p) (y p)). set (angle := atan2 (y p) (x p)).
  destruct (out_of_view n m range angle).
  { intros [= <-]. split; [apply same_geometry_refl | reflexivity]. }
  destruct (bin_index m angle) as [i| |]; cbn; try discriminate.
  unfold vec_get.
  destruct (Z.ltb_spec i 0); try discriminate.
  destruct (Z.leb_spec 0 i); try lia.
  destruct (ranges m !! Z.to_nat i) as [c|] eqn:Hc; cbn; try discriminate.
  pose proof (lookup_lt_Some _ _ _ Hc) as Hlt.
  assert (Hr : exists m1,
    (if Fp.lt range c
     then let* v := vec_set (ranges m) i (narrow range) in
          Ok (set_ranges v m)
     else Ok m) = Ok m1 /\
    same_geometry m m1 /\ intensities m1 = intensities m /\
    ranges m1 = bin_min (ranges m) (Z.to_nat i, range)).
  { unfold bin_min, cell_step; cbn.
    destruct (Fp.lt range c) eqn:Hlc.
    - unfold vec_set.
      destruct (Z.ltb_spec i (Z.of_nat (length (ranges m)))); [|lia].
      destruct (Z.leb_spec 0 i); [|lia]. cbn.
      eexists; split; [reflexivity|]. cbn. repeat split.
      apply list_eq; intros j.
      destruct (decide (Z.to_nat i = j)) as [<-|Hne].
      + rewrite list_lookup_insert_eq, list_lookup_alter_eq, Hc by lia.
        cbn. now rewrite Hlc.
      + now rewrite list_lookup_insert_ne, list_lookup_alter_ne.
    - eexists; split; [reflexivity|]. repeat split.
      apply list_eq; intros j.
      destruct (decide (Z.to_nat i = j)) as [<-|Hne].
      + rewrite list_lookup_alter_eq, Hc. cbn. now rewrite Hlc.
      + now rewrite list_lookup_alter_ne. }
  destruct Hr as (m1 & -> & Hg & Hi & Hrs). cbn.
  destruct hi.
  - destruct (intensity p) as [v|]; cbn; try discriminate.
    unfold vec_set.
    destruct (_ && _) eqn:Hb; try discriminate. intros [= <-]; cbn.
    apply andb_true_iff in Hb as [_ Hb%Z.ltb_lt]. rewrite Hi in Hb.
    split; [exact Hg|]. repeat split; try lia; [exact Hrs|].
    exists v. repeat split; [lia|]. now rewrite Hi.
  - intros [= <-]. split; [exact Hg|]. repeat split; try lia; assumption.
Qed.

(** The ranges after the loop: every point that is not skipped lowers
    its bin. *)
Lemma for_each_ranges n hi g pts : forall m m',
  same_geometry g m ->
  for_each (project_point n hi) m pts = Ok m' ->
  same_geometry g m' /\
  ranges m' = foldl bin_min (ranges m) (omap (target n g) pts).
Proof.
  induction pts as [|p pts IH]; intros m m' Hg; cbn.
  - intros [= <-]. split; [exact Hg | reflexivity].
  - destruct (project_point n hi m p) as [m1| |] eqn:E; cbn;
      try discriminate.
    intros H.
    destruct (project_point_Ok _ _ _ _ _ E) as [Hg1 Hp].
    destruct (IH _ _ (same_geometry_trans _ _ _ Hg Hg1) H) as [Hg' ->].
    split; [exact Hg'|].
    rewrite (target_geometry n g m p Hg).
    destruct (target n m p) as [[i r]|]; cbn.
    + destruct Hp as (_ & -> & _). reflexivity.
    + now subst m1.
Qed.

Lemma project_point_lengths n hi m p m' :
  project_point n hi m p = Ok m' ->
  length (ranges m') = length (ranges m)
  /\ length (intensities m') = length (intensities m).
Proof.
  intros H. destruct (project_point_Ok _ _ _ _ _ H) as [_ Hp].
  destruct (target n m p) as [[i r]|]; [|now subst].
  destruct Hp as (_ & -> & Hi). rewrite bin_min_length. split; [done|].
  destruct hi; [|now rewrite Hi].
  destruct Hi as (v & _ & _ & ->). apply length_insert.
Qed.

Lemma project_point_safe n hi m p :
  (hi = true -> length (intensities m) = length (ranges m)) ->
  (exists m', project_point n hi m p = Ok m')
  <-> safe n m (length (ranges m)) hi p = true.
Proof.
  intros Hlen. unfold project_point, safe.
  set (range := hypot (x p) (y p)). set (angle := atan2 (y p) (x p)).
  destruct (out_of_view n m range angle); cbn; [split; eauto|].
  destruct (bin_index m angle) as [i| |]; cbn;
    try (split; [intros [? [=]] | discriminate]).
  unfold vec_get, vec_set.
  destruct (Z.ltb_spec i 0), (Z.leb_spec 0 i); try lia; cbn;
    try (split; [intros [? [=]] | discriminate]).
  destruct (Z.ltb_spec i (Z.of_nat (length (ranges m)))); cbn.
  - destruct (lookup_lt_is_Some_2 (ranges m) (Z.to_nat i)) as [c ->];
      [lia|]. cbn.
    destruct (Fp.lt range c); cbn.
    + destruct hi; cbn; [|split; eauto].
      destruct (intensity p) as [v|]; cbn;
        try (split; [intros [? [=]] | discriminate]).
      rewrite Hlen by reflexivity.
      destruct (Z.ltb_spec i (Z.of_nat (length (ranges m)))); [|lia].
      cbn. split; eauto.
    + destruct hi; cbn; [|split; eauto].
      destruct (intensity p) as [v|]; cbn;
        try (split; [intros [? [=]] | discriminate]).
      rewrite Hlen by reflexivity.
      destruct (Z.ltb_spec i (Z.of_nat (length (ranges m)))); [|lia].
      cbn. split; eauto.
  - rewrite (lookup_ge_None_2 (ranges m) (Z.to_nat i)) by lia.
    split; [intros [? [=]] | discriminate].
Qed.

Lemma safe_geometry n g m len hi p :
  same_geometry g m -> safe n g len hi p = safe n m len hi p.
Proof.
  intros (H1 & H2 & H3).
  unfold safe, out_of_view, bin_index. now rewrite H1, H2, H3.
Qed.

(** The loop completes exactly when every turn is safe. *)
Lemma for_each_safe n hi g pts : forall m,
  same_geometry g m ->
  (hi = true -> length (intensities m) = length (ranges m)) ->
  (exists m', for_each (project_point n hi) m pts = Ok m')
  <-> forallb (safe n g (length (ranges m)) hi) pts = true.
Proof.
  induction pts as [|p pts IH]; intros m Hg Hlen; cbn.
  { split; eauto. }
  rewrite andb_true_iff, (safe_geometry n g m _ _ _ Hg),
    <- (project_point_safe n hi m p Hlen).
  split.
  - intros [m' H].
    destruct (project_point n hi m p) as [m1| |] eqn:E; try discriminate.
    cbn in H. split; [eauto|].
    destruct (project_point_Ok _ _ _ _ _ E) as [Hg1 _].
    destruct (project_point_lengths _ _ _ _ _ E) as [L1 L2].
    rewrite <- L1. apply IH; eauto using same_geometry_trans.
    intros; rewrite L1, L2; auto.
  - intros [[m1 E] H]. rewrite E; cbn.
    destruct (project_point_Ok _ _ _ _ _ E) as [Hg1 _].
    destruct (project_point_lengths _ _ _ _ _ E) as [L1 L2].
    rewrite <- L1 in H. apply IH in H; eauto using same_geometry_trans.
    intros; rewrite L1, L2; auto.
Qed.

(** The message before the loop. *)
Lemma empty_scan_Ok n hi m :
  empty_scan n hi = Ok m ->
  exists size,
    ranges m = replicate size (fill n)
    /\ intensities m = (if hi then replicate size 0%float else [])
    /\ angle_min m = narrow (min_angle n)
    /\ angle_max m = narrow (max_angle n)
    /\ angle_increment m = narrow (angle_increment_ n).
Proof.
  unfold empty_scan, fill.
  destruct (ranges_size _) as [size| |]; cbn; try discriminate.
  intros [= <-]. exists size.
  destruct hi, (use_inf n); cbn; repeat split.
Qed.

Lemma ConvertLaserScan_Ok n pts s :
  ConvertLaserScan n pts = ([EvPublishScan s], Ok tt) ->
  exists p0 rest m0,
    pts = p0 :: rest
    /\ empty_scan n (has_value (intensity p0)) = Ok m0
    /\ for_each (project_point n (has_value (intensity p0))) m0 pts = Ok s.
Proof.
  destruct pts as [|p0 rest]; cbn; [discriminate|].
  destruct (empty_scan n _) as [m0| |] eqn:E0; cbn; try discriminate.
  destruct (let* _ := project_point _ _ m0 p0 in _) as [s1| |] eqn:E;
    cbn; try discriminate.
  intros [= <-]. exists p0, rest, m0. auto.
Qed.

Section Narrowing.
(** The conversion to single precision is monotone and leaves single
    precision values as they are. *)
Hypothesis narrow_mono :
  forall a b, Fp.le a b = true -> Fp.le (narrow a) (narrow b) = true.
Hypothesis narrow_idem : forall a, narrow (narrow a) = narrow a.

Lemma cell_step_single c r : single c -> single (cell_step c r).
Proof.
  unfold single, cell_step. intros Hc.
  destruct (Fp.lt r c); [apply narrow_idem | exact Hc].
Qed.

Lemma cell_step_same c c' r :
  Fp.same c c' -> Fp.same (cell_step c r) (cell_step c' r).
Proof.
  intros H. unfold cell_step. rewrite (same_lt_r r c c' H).
  destruct (Fp.lt r c'); [apply same_refl | exact H].
Qed.

Lemma lt_narrow_le a c :
  single c -> Fp.lt a c = true -> Fp.le (narrow a) c = true.
Proof.
  intros Hc H. rewrite <- Hc. now apply narrow_mono, lt_le.
Qed.

Lemma narrow_le_narrow a b :
  Fp.lt a (narrow b) = true -> Fp.le (narrow a) (narrow b) = true.
Proof.
  intros H. rewrite <- (narrow_idem b). now apply narrow_mono, lt_le.
Qed.

Lemma narrow_ge_narrow a b :
  (a =? a)%float = true -> (narrow b =? narrow b)%float = true ->
  Fp.lt a (narrow b) = false -> Fp.le (narrow b) (narrow a) = true.
Proof.
  intros Ha Hb H. rewrite <- (narrow_idem b).
  now apply narrow_mono, not_lt_ge.
Qed.

(** Two points that fall into the same bin can be taken in either
    order. *)
Lemma cell_step_swap c r1 r2 :
  single c ->
  Fp.same (cell_step (cell_step c r1) r2) (cell_step (cell_step c r2) r1).
Proof.
  intros Hc. unfold cell_step.
  destruct (Fp.lt r1 c) eqn:H1, (Fp.lt r2 c) eqn:H2; cbn;
    rewrite ?H1, ?H2.
  - pose proof (lt_narrow_le _ _ Hc H1) as L1.
    pose proof (lt_narrow_le _ _ Hc H2) as L2.
    pose proof (proj1 (lt_not_nan _ _ H1)) as N1.
    pose proof (proj1 (lt_not_nan _ _ H2)) as N2.
    destruct (Fp.lt r2 (narrow r1)) eqn:A, (Fp.lt r1 (narrow r2)) eqn:B;
      try apply same_refl; right.
    + apply le_antisym; now apply narrow_le_narrow.
    + apply le_antisym; apply narrow_ge_narrow; try assumption.
      * apply (le_not_nan _ _ L1).
      * apply (le_not_nan _ _ L2).
  - destruct (Fp.lt r2 (narrow r1)) eqn:A; [|apply same_refl].
    rewrite (lt_le_trans _ _ _ A (lt_narrow_le _ _ Hc H1)) in H2.
    discriminate.
  - destruct (Fp.lt r1 (narrow r2)) eqn:B; [|apply same_refl].
    rewrite (lt_le_trans _ _ _ B (lt_narrow_le _ _ Hc H2)) in H1.
    discriminate.
  - apply same_refl.
Qed.

Lemma bin_min_single rs t : Forall single rs -> Forall single (bin_min rs t).
Proof.
  intros H. apply Forall_alter; [exact H|].
  intros c _. apply cell_step_single.
Qed.

Lemma bin_min_same rs rs' t :
  Forall2 Fp.same rs rs' -> Forall2 Fp.same (bin_min rs t) (bin_min rs' t).
Proof.
  intros H. apply Forall2_alter; [exact H|].
  intros c c' _ _. apply cell_step_same.
Qed.

Lemma Forall2_same_refl rs : Forall2 Fp.same rs rs.
Proof. apply Forall_Forall2_diag, Forall_forall. intros; apply same_refl. Qed.

Lemma Forall2_same_trans rs1 rs2 rs3 :
  Forall2 Fp.same rs1 rs2 -> Forall2 Fp.same rs2 rs3 ->
  Forall2 Fp.same rs1 rs3.
Proof.
  intros H. revert rs3. induction H; intros rs3 H3; inversion H3; subst;
    constructor; eauto using same_trans.
Qed.

Lemma bin_min_swap rs t1 t2 :
  Forall single rs ->
  Forall2 Fp.same (bin_min (bin_min rs t1) t2) (bin_min (bin_min rs t2) t1).
Proof.
  intros Hs. destruct t1 as [i1 r1], t2 as [i2 r2].
  apply Forall2_same_length_lookup. split.
  { now rewrite !bin_min_length. }
  unfold bin_min; cbn. intros k c c'.
  destruct (decide (i1 = i2)) as [->|Hne].
  - destruct (decide (i2 = k)) as [->|Hk].
    + rewrite !list_lookup_alter_eq.
      destruct (rs !! k) as [c0|] eqn:E; cbn; try discriminate.
      intros [= <-] [= <-]. apply cell_step_swap.
      eapply (proj1 (Forall_lookup _ _) Hs); eassumption.
    + rewrite !list_lookup_alter_ne by assumption.
      intros -> [= ->]. apply same_refl.
  - destruct (decide (i1 = k)) as [->|H1], (decide (i2 = k)) as [->|H2];
      try congruence;
      rewrite ?list_lookup_alter_eq, ?list_lookup_alter_ne,
        ?list_lookup_alter_eq, ?list_lookup_alter_ne by assumption;
      intros -> [= ->]; apply same_refl.
Qed.

Lemma foldl_bin_min_single ts : forall rs,
  Forall single rs -> Forall single (foldl bin_min rs ts).
Proof.
  induction ts as [|t ts IH]; intros rs H; cbn; [exact H|].
  now apply IH, bin_min_single.
Qed.

Lemma foldl_bin_min_same ts : forall rs rs',
  Forall2 Fp.same rs rs' ->
  Forall2 Fp.same (foldl bin_min rs ts) (foldl bin_min rs' ts).
Proof.
  induction ts as [|t ts IH]; intros rs rs' H; cbn; [exact H|].
  now apply IH, bin_min_same.
Qed.

(** The ranges do not depend on the order of the points. *)
Lemma foldl_bin_min_perm ts ts' :
  ts ≡ₚ ts' -> forall rs,
  Forall single rs ->
  Forall2 Fp.same (foldl bin_min rs ts) (foldl bin_min rs ts').
Proof.
  induction 1 as [|t ts ts' _ IH|t1 t2 ts|ts1 ts2 ts3 _ IH1 _ IH2];
    intros rs Hs; cbn.
  - apply Forall2_same_refl.
  - now apply IH, bin_min_single.
  - now apply foldl_bin_min_same, bin_min_swap.
  - eapply Forall2_same_trans; [now apply IH1 | now apply IH2].
Qed.

End Narrowing.

Lemma for_each_lengths n hi pts : forall m m',
  for_each (project_point n hi) m pts = Ok m' ->
  length (ranges m') = length (ranges m)
  /\ length (intensities m') = length (intensities m).
Proof.
  induction pts as [|p pts IH]; intros m m'; cbn.
  - now intros [= <-].
  - destruct (project_point n hi m p) as [m1| |] eqn:E; cbn;
      try discriminate.
    intros H. destruct (IH _ _ H) as [-> ->].
    eapply project_point_lengths, E.
Qed.

(** The intensities after the loop: the last point written to a bin
    leaves its intensity there. *)
Lemma for_each_intensities n g b pts : forall m m',
  same_geometry g m ->
  for_each (project_point n true) m pts = Ok m' ->
  intensities m' !! b =
    match last (bin_hits n g b pts) with
    | Some p => narrow <$> intensity p
    | None => intensities m !! b
    end.
Proof.
  induction pts as [|p pts IH]; intros m m' Hg; cbn.
  - now intros [= <-].
  - destruct (project_point n true m p) as [m1| |] eqn:E; cbn;
      try discriminate.
    intros H.
    destruct (project_point_Ok _ _ _ _ _ E) as [Hg1 Hp].
    rewrite (IH _ _ (same_geometry_trans _ _ _ Hg Hg1) H).
    unfold bin_hits in *.
    rewrite <- (target_geometry n g m p Hg) in Hp.
    destruct (decide (fst <$> target n g p = Some b)) as [Hb|Hb].
    + rewrite last_cons.
      destruct (last _) as [q|]; [reflexivity|].
      destruct (target n g p) as [[i r]|]; [|discriminate].
      cbn in Hb. injection Hb as ->.
      destruct Hp as (_ & _ & v & -> & Hlt & ->).
      now rewrite list_lookup_insert_eq.
    + destruct (last _) as [q|]; [reflexivity|].
      destruct (target n g p) as [[i r]|]; [|now subst].
      destruct Hp as (_ & _ & v & _ & _ & ->).
      apply list_lookup_insert_ne. cbn in Hb. congruence.
Qed.

Lemma uniform_perm pts pts' : pts ≡ₚ pts' -> uniform pts -> uniform pts'.
Proof.
  intros Hp Hu p q Hp' Hq'. apply Hu; now rewrite Hp.
Qed.

Lemma forallb_perm {A} (f : A -> bool) (l l' : list A) :
  l ≡ₚ l' -> forallb f l = forallb f l'.
Proof.
  induction 1 as [|a l l' _ IH|a b l|l1 l2 l3 _ IH1 _ IH2]; cbn;
    try congruence.
  now rewrite !andb_assoc, (andb_comm (f b)).
Qed.

End BinFacts.

(* ================================================================== *)
(** * Range-scan projection: the order of the points *)

(** C3.  The ranges of the synthetic scan do not depend on the order in which
    the points are given to [ConvertLaserScan]: when the projection of a
    point set publishes a scan, the projection of the same points in any
    other order publishes, bin for bin, the same ranges ([Fp.same]: equal as
    doubles).  The other order does publish whenever the points agree on
    carrying an intensity.  The conversion of a range to the single precision
    of the message is assumed monotone and idempotent, as rounding is. *)
Theorem ConvertLaserScan_ranges_permutation `{P : Platform}
    (n : laser_merger2) (pts pts' : list SCAN_POINT_t) (s : LaserScan) :
  (forall a b, Fp.le a b = true -> Fp.le (narrow a) (narrow b) = true) ->
  (forall a, narrow (narrow a) = narrow a) ->
  pts ≡ₚ pts' ->
  ConvertLaserScan n pts = ([EvPublishScan s], Ok tt) ->
  (forall s', ConvertLaserScan n pts' = ([EvPublishScan s'], Ok tt) ->
              Forall2 Fp.same (ranges s) (ranges s'))
  /\ (uniform pts ->
      exists s', ConvertLaserScan n pts' = ([EvPublishScan s'], Ok tt)).
Proof.
  intros Hmono Hidem Hperm Hs.
  destruct (ConvertLaserScan_Ok _ _ _ Hs) as (p0 & rest & m0 & -> & E0 & Ef).
  destruct (empty_scan_Ok _ _ _ E0) as (size & Hr0 & Hi0 & Hg0).
  split.
  - intros s' Hs'.
    destruct (ConvertLaserScan_Ok _ _ _ Hs') as (p0' & rest' & m0' & -> & E0' & Ef').
    destruct (empty_scan_Ok _ _ _ E0') as (size' & Hr0' & _ & Hg0').
    assert (Hgeo : same_geometry m0 m0').
    { destruct Hg0 as (A1 & A2 & A3), Hg0' as (B1 & B2 & B3).
      unfold same_geometry. now rewrite A1, A2, A3, B1, B2, B3. }
    assert (size' = size) as ->.
    { revert E0 E0'. unfold empty_scan.
      destruct (ranges_size _) as [k| |]; cbn; try discriminate.
      intros [= <-] [= <-]. cbn in Hr0, Hr0'.
      apply (f_equal length) in Hr0, Hr0'.
      destruct (use_inf n), (has_value (intensity p0)),
        (has_value (intensity p0')); cbn in *;
        rewrite !length_replicate in *; congruence. }
    destruct (for_each_ranges _ _ m0 _ _ _ (same_geometry_refl m0) Ef)
      as [_ ->].
    destruct (for_each_ranges _ _ m0 _ _ _ Hgeo Ef') as [_ ->].
    rewrite Hr0, Hr0'.
    apply foldl_bin_min_perm; try assumption.
    + now apply omap_Permutation.
    + apply Forall_replicate. unfold single, fill.
      destruct (use_inf n); apply Hidem.
  - intros Hu.
    destruct pts' as [|p0' rest'].
    { now apply Permutation_nil_r in Hperm. }
    assert (Hhi : has_value (intensity p0') = has_value (intensity p0)).
    { apply Hu; [rewrite Hperm|]; apply list_elem_of_here. }
    assert (Hlen : has_value (intensity p0) = true ->
                   length (intensities m0) = length (ranges m0)).
    { intros Hh. now rewrite Hr0, Hi0, Hh, !length_replicate. }
    destruct (proj2 (for_each_safe n _ m0 (p0' :: rest') m0
                       (same_geometry_refl m0) Hlen)) as [s' Hs'].
    { rewrite <- (forallb_perm _ _ _ Hperm).
      apply (for_each_safe n _ m0 _ m0 (same_geometry_refl m0) Hlen).
      eauto. }
    exists s'. cbn. rewrite Hhi, E0. cbn. cbn in Hs'. now rewrite Hs'.
Qed.

(* ================================================================== *)
(** * Range-scan projection: intensities *)

(** C7 (as the code has it).  The scan gets an intensities array exactly when
    the first point of the set carries an intensity, whatever the other
    points carry: before the loop the array has one zero for every range in
    that case and is empty otherwise (lines 313-315), the loop keeps its
    length, and a bin that no point fell into still holds its zero when the
    scan is published. *)
Theorem intensities_allocated_by_first_point `{P : Platform}
    (n : laser_merger2) (p0 : SCAN_POINT_t) (rest : list SCAN_POINT_t)
    (s : LaserScan) :
  ConvertLaserScan n (p0 :: rest) = ([EvPublishScan s], Ok tt) ->
  let hi := has_value (intensity p0) in
  (exists m0,
     empty_scan n hi = Ok m0
     /\ length (ranges m0) = length (ranges s)
     /\ intensities m0
        = if hi then replicate (length (ranges s)) 0%float else [])
  /\ length (intensities s) = (if hi then length (ranges s) else 0)
  /\ (hi = true ->
      forall b, b < length (ranges s) ->
        bin_hits n s b (p0 :: rest) = [] ->
        intensities s !! b = Some 0%float).
Proof.
  intros Hs hi.
  destruct (ConvertLaserScan_Ok _ _ _ Hs) as (q & rest' & m0 & [= <- <-] & E0 & Ef).
  fold hi in E0, Ef.
  destruct (empty_scan_Ok _ _ _ E0) as (size & Hr0 & Hi0 & _).
  destruct (for_each_lengths _ _ _ _ _ Ef) as [Hlr Hli].
  assert (Hsize : length (ranges s) = size)
    by now rewrite Hlr, Hr0, length_replicate.
  split; [|split].
  - exists m0. split; [exact E0|]. split; [now symmetry|].
    now rewrite Hi0, Hsize.
  - rewrite Hli, Hi0, Hsize. destruct hi; now rewrite ?length_replicate.
  - intros Hhi b Hb Hnone. rewrite Hhi in *.
    destruct (for_each_ranges _ _ m0 _ _ _ (same_geometry_refl m0) Ef)
      as [Hg _].
    rewrite (for_each_intensities n m0 b _ _ _ (same_geometry_refl m0) Ef).
    assert (Hbin : bin_hits n s b (p0 :: rest) = bin_hits n m0 b (p0 :: rest)).
    { unfold bin_hits. apply list_filter_iff. intros p.
      now rewrite (target_geometry n m0 s p Hg). }
    rewrite <- Hbin, Hnone. cbn. rewrite Hi0.
    apply lookup_replicate_2. now rewrite <- Hsize.
Qed.

(** X18.  What line 333 does in general: it writes the intensity of every point
    that is not skipped, whether or not the point lowered the range of its
    bin.  So when intensities are written, a bin holds the intensity of the
    last point, in the order of the loop, that fell into the bin, and 0 when
    no point did. *)
Theorem ConvertLaserScan_intensity_last_hit `{P : Platform}
    (n : laser_merger2) (p0 : SCAN_POINT_t) (rest : list SCAN_POINT_t)
    (s : LaserScan) (b : nat) :
  ConvertLaserScan n (p0 :: rest) = ([EvPublishScan s], Ok tt) ->
  has_value (intensity p0) = true ->
  b < length (ranges s) ->
  intensities s !! b =
    match last (bin_hits n s b (p0 :: rest)) with
    | Some p => narrow <$> intensity p
    | None => Some 0%float
    end.
Proof.
  intros Hs Hhi Hb.
  destruct (ConvertLaserScan_Ok _ _ _ Hs) as (q & rest' & m0 & [= <- <-] & E0 & Ef).
  rewrite Hhi in *.
  destruct (empty_scan_Ok _ _ _ E0) as (size & Hr0 & Hi0 & _).
  destruct (for_each_ranges _ _ m0 _ _ _ (same_geometry_refl m0) Ef)
    as [Hg _].
  destruct (for_each_lengths _ _ _ _ _ Ef) as [Hl _].
  rewrite (for_each_intensities n m0 b _ _ _ (same_geometry_refl m0) Ef).
  assert (Hbin : bin_hits n s b (p0 :: rest) = bin_hits n m0 b (p0 :: rest)).
  { unfold bin_hits. apply list_filter_iff. intros p.
    now rewrite (target_geometry n m0 s p Hg). }
  rewrite Hbin. destruct (last _); [reflexivity|].
  rewrite Hi0. apply lookup_replicate_2.
  rewrite Hl, Hr0, length_replicate in Hb. exact Hb.
Qed.

(* ================================================================== *)
(** * Range-scan projection: the angular window *)

Section Window.
Context `{P : Platform}.
Import OrderFacts.

Lemma Prim2SF_zero : Prim2SF 0 = S754_zero false.
Proof. reflexivity. Qed.

(** A finite angle, taken from itself and divided by a positive
    increment, is in bin 0. *)
Lemma bin_index_angle_min m :
  Fp.lt neg_infinity (angle_min m) = true ->
  Fp.lt (angle_min m) infinity = true ->
  Fp.lt 0 (angle_increment m) = true ->
  bin_index m (angle_min m) = Ok 0%Z.
Proof.
  unfold bin_index, Fp.trunc, Fp.lt.
  rewrite !FloatAxioms.ltb_spec, FloatAxioms.div_spec, FloatAxioms.sub_spec.
  change (Prim2SF neg_infinity) with (S754_infinity true).
  change (Prim2SF infinity) with (S754_infinity false).
  rewrite Prim2SF_zero.
  destruct (Prim2SF (angle_min m)) as [sa|sa| |sa ma ea];
    destruct (Prim2SF (angle_increment m)) as [si|si| |si mi ei];
    try (destruct sa); try (destruct si); cbn; try discriminate;
    intros _ _ _; rewrite ?Z.sub_diag; reflexivity.
Qed.

End Window.

(** C2 (as the code has it).  Line 321 skips a point whose angle is strictly
    below [angle_min] or strictly above [angle_max], and leaves the message as
    it is; the test does not reject a point whose angle is one of the two
    bounds.  A point whose angle is [angle_min] itself, when its range is in
    the band, the window is not empty, [angle_min] is finite and the increment
    positive, is written to bin 0: its range is the candidate for the
    minimum of the bin, with or without an intensities array, and its
    intensity goes to bin 0 of that array when there is one (the point must
    carry one then). *)
Theorem angular_window_boundaries `{P : Platform}
    (n : laser_merger2) (hi : bool) (m : LaserScan) (p : SCAN_POINT_t) :
  let range := hypot (x p) (y p) in
  let angle := atan2 (y p) (x p) in
  (Fp.lt angle (angle_min m) = true -> project_point n hi m p = Ok m)
  /\ (Fp.gt angle (angle_max m) = true -> project_point n hi m p = Ok m)
  /\ (angle = angle_min m \/ angle = angle_max m ->
      Fp.lt range (min_range n) = false ->
      Fp.gt range (max_range n) = false ->
      Fp.gt (angle_min m) (angle_max m) = false ->
      out_of_view n m range angle = false)
  /\ (angle = angle_min m ->
      Fp.lt range (min_range n) = false ->
      Fp.gt range (max_range n) = false ->
      Fp.gt (angle_min m) (angle_max m) = false ->
      Fp.lt neg_infinity (angle_min m) = true ->
      Fp.lt (angle_min m) infinity = true ->
      Fp.lt 0 (angle_increment m) = true ->
      0 < length (ranges m) ->
      (hi = true -> length (intensities m) = length (ranges m)) ->
      (hi = true -> is_Some (intensity p)) ->
      exists m', project_point n hi m p = Ok m'
                 /\ ranges m' = bin_min (ranges m) (0, range)
                 /\ intensities m' !! 0
                    = if hi then narrow <$> intensity p
                      else intensities m !! 0).
Proof.
  intros range angle. repeat split.
  - intros H. unfold project_point, out_of_view. fold range angle.
    rewrite H, !orb_true_r. reflexivity.
  - intros H. unfold project_point, out_of_view. fold range angle.
    rewrite H, !orb_true_r. reflexivity.
  - intros [Ha|Ha] H1 H2 H3; unfold range, angle in *;
      change (Fp.lt (max_range n) (hypot (x p) (y p)) = false) in H2;
      change (Fp.lt (angle_max m) (angle_min m) = false) in H3;
      unfold out_of_view, Fp.gt; change PrimFloat.ltb with Fp.lt;
      rewrite Ha, H1, H2, ?H3, !OrderFacts.lt_irrefl; reflexivity.
  - intros Ha H1 H2 H3 H4 H5 H6 Hlen Hil Hip.
    assert (Ht : target n m p = Some (0, range)).
    { unfold target, out_of_view. fold range angle.
      rewrite Ha, H1, H2, H3, OrderFacts.lt_irrefl. cbn.
      now rewrite bin_index_angle_min. }
    destruct (proj2 (project_point_safe n hi m p Hil)) as [m' Hm'].
    { unfold safe, out_of_view. fold range angle.
      rewrite Ha, H1, H2, H3, OrderFacts.lt_irrefl. cbn.
      rewrite bin_index_angle_min by assumption. cbn.
      destruct (Z.ltb_spec 0 (Z.of_nat (length (ranges m)))); [|lia].
      destruct hi; [|reflexivity]. now destruct (Hip eq_refl) as [v ->]. }
    exists m'. split; [exact Hm'|].
    destruct (project_point_Ok _ _ _ _ _ Hm') as [_ Hp].
    rewrite Ht in Hp. destruct Hp as (_ & Hr & Hi). split; [exact Hr|].
    destruct hi; [|now rewrite Hi].
    destruct Hi as (v & Ev & Hlt & ->). rewrite Ev. cbn.
    now apply list_lookup_insert_eq.
Qed.

(* ================================================================== *)
(** * Scan-to-points conversion *)

Section Samples.
Context `{P : Platform}.

(** The gate of line 170. *)
Lemma scan_sample_gate T scan hi i r :
  scan_sample T scan hi i r = None
  <-> Fp.le r (range_min scan) || Fp.ge r (range_max scan) = true.
Proof.
  unfold scan_sample.
  destruct (Fp.le r (range_min scan) || Fp.ge r (range_max scan)).
  - split; reflexivity.
  - destruct (mat_vec _ _) as [[[px py] pz] pw].
    split; discriminate.
Qed.

Lemma samples_length T scan hi rs : forall k,
  length (omap (fun '(i, r) => scan_sample T scan hi i r)
            (imap (fun i r => (k + i, r)) rs))
  = length (filter
              (fun r => Fp.le r (range_min scan) || Fp.ge r (range_max scan)
                        = false) rs).
Proof.
  induction rs as [|r rs IH]; intros k; [reflexivity|].
  cbn [imap omap]. rewrite filter_cons.
  rewrite (imap_ext _ (fun i r => (S k + i, r)) rs)
    by (intros; cbn; repeat f_equal; lia).
  specialize (IH (S k)).
  destruct (decide _) as [Hn|Hn].
  - destruct (scan_sample T scan hi (k + 0) r) as [pt|] eqn:E.
    + cbn. rewrite E. cbn. f_equal. exact IH.
    + apply scan_sample_gate in E. congruence.
  - apply not_false_iff_true in Hn.
    pose proof (proj2 (scan_sample_gate T scan hi (k + 0) r) Hn) as E.
    cbn. rewrite E. exact IH.
Qed.

Lemma scantoPointXYZ_length n scan t :
  tf2_ n (target_frame_ n) (frame_id (scan_header scan)) = Some t ->
  length (scantoPointXYZ n scan)
  = length (filter
              (fun r => Fp.le r (range_min scan) || Fp.ge r (range_max scan)
                        = false) (ranges scan)).
Proof.
  intros Ht. unfold scantoPointXYZ. rewrite Ht.
  apply (samples_length _ _ _ _ 0).
Qed.

Lemma scantoPointXYZ_lost n scan :
  tf2_ n (target_frame_ n) (frame_id (scan_header scan)) = None ->
  scantoPointXYZ n scan = [].
Proof. intros Ht. unfold scantoPointXYZ. now rewrite Ht. Qed.

End Samples.

(** C4.  When the transform of the scan is known, a sample whose range is at
    or below [range_min], or at or above [range_max], gives no point (line
    170), so a sample exactly at one of the two bounds is dropped; a sample
    strictly between the bounds gives a point; and the conversion returns as
    many points as there are samples that the gate lets through. *)
Theorem scantoPointXYZ_range_gate `{P : Platform}
    (n : laser_merger2) (scan : LaserScan) (t : TransformStamped) :
  tf2_ n (target_frame_ n) (frame_id (scan_header scan)) = Some t ->
  let T := ConvertTransMatrix t in
  let hi := Nat.eqb (length (intensities scan)) (length (ranges scan)) in
  scantoPointXYZ n scan
    = omap (fun '(i, r) => scan_sample T scan hi i r)
        (imap (fun i r => (i, r)) (ranges scan))
  /\ (forall i r,
        Fp.le r (range_min scan) = true \/ Fp.ge r (range_max scan) = true ->
        scan_sample T scan hi i r = None)
  /\ (forall i r,
        (r =? range_min scan)%float = true
        \/ (r =? range_max scan)%float = true ->
        scan_sample T scan hi i r = None)
  /\ (forall i r,
        Fp.lt (range_min scan) r = true -> Fp.lt r (range_max scan) = true ->
        is_Some (scan_sample T scan hi i r))
  /\ length (scantoPointXYZ n scan)
     = length (filter
                 (fun r => Fp.le r (range_min scan)
                           || Fp.ge r (range_max scan) = false)
                 (ranges scan)).
Proof.
  intros Ht T hi. repeat split.
  - unfold scantoPointXYZ. now rewrite Ht.
  - intros i r H. apply scan_sample_gate, orb_true_iff. exact H.
  - intros i r [H|H]; apply scan_sample_gate, orb_true_iff.
    + left. now apply OrderFacts.eqb_le.
    + right. now apply OrderFacts.eqb_ge.
  - intros i r H1 H2.
    destruct (scan_sample T scan hi i r) eqn:E; [eauto|].
    apply scan_sample_gate, orb_true_iff in E as [E|E].
    + now rewrite (OrderFacts.lt_not_ge _ _ H1) in E.
    + change (Fp.le (range_max scan) r = true) in E.
      now rewrite (OrderFacts.lt_not_ge _ _ H2) in E.
  - now apply scantoPointXYZ_length with t.
Qed.

(* ================================================================== *)
(** * The fusion cycle *)

Section Cycle.
Context `{P : Platform}.

Lemma filter_none {A} (Q : A -> Prop) `{!forall a, Decision (Q a)}
    (l : list A) :
  (forall a, a ∈ l -> ~ Q a) -> filter Q l = [].
Proof.
  intros Hn. destruct (filter Q l) as [|a l'] eqn:E; [reflexivity|].
  assert (Ha : a ∈ filter Q l) by (rewrite E; left).
  apply list_elem_of_filter in Ha as [Ha1 Ha2]. now destruct (Hn a).
Qed.

Lemma iterator_for_Ok names name :
  name ∈ names -> iterator_for names name = Ok tt.
Proof. intros H. unfold iterator_for. now rewrite bool_decide_eq_true_2. Qed.

Lemma iterator_for_Throw names name :
  name ∉ names -> iterator_for names name = Throw runtime_error.
Proof. intros H. unfold iterator_for. now rewrite bool_decide_eq_false_2. Qed.

(** What the conversion of a cloud gives: nothing when the cloud cannot be
    transformed, [runtime_error] when the transformed cloud lacks one of
    the four fields, and one point for every row otherwise. *)
Lemma pointCloudtoPointXYZ_spec n cloud :
  match transformPointCloud (target_frame_ n) cloud (tf2_ n) with
  | None => pointCloudtoPointXYZ n cloud = Ok []
  | Some t =>
      if bool_decide (Forall (fun name => name ∈ fields t)
                        ["x"; "y"; "z"; "intensity"])
      then pointCloudtoPointXYZ n cloud
           = Ok ((fun c =>
                    {| x := c_x c; y := c_y c; z := c_z c;
                       intensity :=
                         if bool_decide ("intensity" ∈ fields cloud)
                         then Some (c_intensity c) else None |})
                   <$> cloud_points t)
      else pointCloudtoPointXYZ n cloud = Throw runtime_error
  end.
Proof.
  unfold pointCloudtoPointXYZ.
  destruct (transformPointCloud _ _ _) as [t|]; [|reflexivity].
  destruct (bool_decide_reflect
              (Forall (fun name => name ∈ fields t)
                 ["x"; "y"; "z"; "intensity"])) as [H|H].
  - apply Forall_cons in H as [Hx H]. apply Forall_cons in H as [Hy H].
    apply Forall_cons in H as [Hz H]. apply Forall_cons in H as [Hi _].
    now rewrite !iterator_for_Ok.
  - destruct (decide ("x" ∈ fields t)) as [Hx|Hx];
      [rewrite (iterator_for_Ok _ _ Hx)
      |now rewrite (iterator_for_Throw _ _ Hx)].
    destruct (decide ("y" ∈ fields t)) as [Hy|Hy];
      [rewrite (iterator_for_Ok _ _ Hy)
      |now rewrite (iterator_for_Throw _ _ Hy)].
    destruct (decide ("z" ∈ fields t)) as [Hz|Hz];
      [rewrite (iterator_for_Ok _ _ Hz)
      |now rewrite (iterator_for_Throw _ _ Hz)].
    destruct (decide ("intensity" ∈ fields t)) as [Hi|Hi];
      [|now rewrite (iterator_for_Throw _ _ Hi)].
    destruct H. now repeat constructor.
Qed.

Lemma pointCloudtoPointXYZ_cases n cloud :
  (exists pts, pointCloudtoPointXYZ n cloud = Ok pts)
  \/ pointCloudtoPointXYZ n cloud = Throw runtime_error.
Proof.
  pose proof (pointCloudtoPointXYZ_spec n cloud) as H.
  destruct (transformPointCloud _ _ _) as [t|]; [|eauto].
  destruct (bool_decide _); eauto.
Qed.

(** A loop over a buffer whose conversion cannot fail. *)
Lemma convert_all_total {T} tag (convert : T -> list SCAN_POINT_t) b :
  forall points,
  convert_all tag (fun msg => Ok (convert msg)) b points
  = (tag <$> b.*1, Ok (points ++ concat (convert <$> b.*2))).
Proof.
  induction b as [|[k msg] b IH]; intros points; cbn.
  - now rewrite app_nil_r.
  - rewrite IH. cbn. now rewrite <- app_assoc.
Qed.

(** A loop over a buffer: every message is converted, or the loop stops at
    the first message whose conversion fails. *)
Lemma convert_all_cases {T} tag
    (convert : T -> result (list SCAN_POINT_t)) b :
  forall points,
  (exists pss,
     traverse convert b.*2 = Ok pss
     /\ convert_all tag convert b points
        = (tag <$> b.*1, Ok (points ++ concat pss)))
  \/ (exists before k c after pss,
        b = before ++ (k, c) :: after
        /\ traverse convert before.*2 = Ok pss
        /\ (forall v, convert c <> Ok v)
        /\ convert_all tag convert b points
           = (tag <$> (before.*1 ++ [k]), convert c)).
Proof.
  induction b as [|[k c] b IH]; intros points.
  - left. exists []. cbn. now rewrite app_nil_r.
  - cbn [convert_all fmap list_fmap traverse fst snd].
    destruct (convert c) as [v| |] eqn:Ec.
    + destruct (IH (points ++ v))
        as [(pss & Et & Ea)|(before & k' & c' & after & pss & -> & Et & Hc & Ea)].
      * left. exists (v :: pss). cbn. rewrite Et, Ea. cbn.
        now rewrite <- app_assoc.
      * right. exists ((k, c) :: before), k', c', after, (v :: pss).
        cbn. rewrite Ec, Et, Ea. cbn. repeat split. exact Hc.
    + right. exists [], k, c, b, []. cbn. rewrite Ec. repeat split.
      intros v. discriminate.
    + right. exists [], k, c, b, []. cbn. rewrite Ec. repeat split.
      intros v. discriminate.
Qed.

(** What the block under the lock does: it converts both buffers and
    releases the lock, or it stops at the first cloud whose conversion
    throws. *)
Lemma drain_cases n :
  let scans := EvScanToPoints <$> (scanBuffer n).*1 in
  (exists pss,
     traverse (pointCloudtoPointXYZ n) (pointCloudBuffer n).*2 = Ok pss
     /\ drain n
        = (EvLock :: scans
             ++ (EvCloudToPoints <$> (pointCloudBuffer n).*1) ++ [EvUnlock],
           Ok (concat (scantoPointXYZ n <$> (scanBuffer n).*2) ++ concat pss,
               set_pointCloudBuffer [] (set_scanBuffer [] n))))
  \/ (exists before k c after pss,
        pointCloudBuffer n = before ++ (k, c) :: after
        /\ traverse (pointCloudtoPointXYZ n) before.*2 = Ok pss
        /\ pointCloudtoPointXYZ n c = Throw runtime_error
        /\ drain n
           = (EvLock :: scans
                ++ (EvCloudToPoints <$> before.*1) ++ [EvCloudToPoints k],
              Throw runtime_error)).
Proof.
  intros scans. unfold drain. rewrite convert_all_total.
  cbn [emit bind app].
  change (pointCloudBuffer (set_scanBuffer [] n)) with (pointCloudBuffer n).
  change (pointCloudtoPointXYZ (set_scanBuffer [] n))
    with (pointCloudtoPointXYZ n).
  destruct (convert_all_cases EvCloudToPoints (pointCloudtoPointXYZ n)
              (pointCloudBuffer n)
              (concat (scantoPointXYZ n <$> (scanBuffer n).*2)))
    as [(pss & Et & ->)|(before & k & c & after & pss & Eb & Et & Hc & ->)].
  - left. exists pss. split; [exact Et|]. reflexivity.
  - right. exists before, k, c, after, pss.
    destruct (pointCloudtoPointXYZ_cases n c) as [[pts Ec]|Ec];
      [now destruct (Hc pts)|].
    repeat split; try assumption. rewrite Ec. cbn.
    now rewrite fmap_app.
Qed.

Lemma drain_Ok n evs points n' :
  drain n = (evs, Ok (points, n')) ->
  evs = EvLock :: (EvScanToPoints <$> (scanBuffer n).*1)
          ++ (EvCloudToPoints <$> (pointCloudBuffer n).*1) ++ [EvUnlock]
  /\ n' = set_pointCloudBuffer [] (set_scanBuffer [] n)
  /\ exists pss,
       traverse (pointCloudtoPointXYZ n) (pointCloudBuffer n).*2 = Ok pss
       /\ points = concat (scantoPointXYZ n <$> (scanBuffer n).*2)
                   ++ concat pss.
Proof.
  destruct (drain_cases n)
    as [(pss & Et & ->)|(before & k & c & after & pss & _ & _ & _ & ->)];
    [|discriminate].
  intros [= <- <- <-]. eauto.
Qed.

(** The block under the lock publishes nothing, however it ends. *)
Lemma drain_no_publish n :
  filter (fun e => is_publish e = true) (drain n).1 = [].
Proof.
  apply filter_none. intros e He Hp.
  destruct (drain_cases n)
    as [(pss & _ & E)|(before & k & c & after & pss & _ & _ & _ & E)];
    rewrite E in He; cbn [fst] in He;
    apply elem_of_cons in He as [->|He]; try discriminate;
    rewrite !elem_of_app in He; destruct He as [He|[He|He]];
    try (apply list_elem_of_fmap in He as (? & -> & _); discriminate);
    apply list_elem_of_singleton in He as ->; discriminate.
Qed.

(** With both buffers empty the block only takes and releases the lock. *)
Lemma drain_idle n :
  scanBuffer n = [] -> pointCloudBuffer n = [] ->
  drain n = ([EvLock; EvUnlock],
             Ok ([], set_pointCloudBuffer [] (set_scanBuffer [] n))).
Proof. destruct n; cbn. intros -> ->. reflexivity. Qed.

Lemma laser_merge_cycle_spec n evs points n' :
  drain n = (evs, Ok (points, n')) ->
  laser_merge_cycle n
  = bind (evs, Ok tt)
      (fun _ => publish_points n' points ;; emit EvSleep ;; ret n').
Proof. unfold laser_merge_cycle. now intros ->. Qed.


(** [ConvertPointCloud2] by the intensity of the first point: without one,
    line 256 reads a fourth triplet that the call does not pass. *)
Lemma ConvertPointCloud2_unfold n p0 rest :
  ConvertPointCloud2 n (p0 :: rest) =
  if has_value (intensity p0) then
    do* rows := lift (traverse (cloud_point true) (p0 :: rest)) in
    emit (EvPublishCloud {|
      cloud_header := {| stamp := laserTime n; frame_id := target_frame_ n |};
      height := 1; width := S (length rest);
      fields := ["x"; "y"; "z"; "intensity"];
      cloud_points := rows |})
  else ([], Undefined).
Proof.
  unfold ConvertPointCloud2.
  destruct (has_value (intensity p0)); [|reflexivity].
  set (t := traverse _ _).
  change (setPointCloud2Fields 4 ["x"; "y"; "z"; "intensity"])
    with (@Ok (list string) ["x"; "y"; "z"; "intensity"]).
  cbn [rbind].
  rewrite !iterator_for_Ok by (rewrite !elem_of_cons; tauto).
  cbn [rbind]. destruct t; reflexivity.
Qed.








End Cycle.


(** C6.  A turn of the worker loop whose buffers give no point publishes
    nothing: its trace is the trace of the block under the lock followed by
    the sleep, without a cloud and without a scan.  Hence a turn that does
    publish had a non-empty set of points. *)
Theorem no_points_no_publication `{P : Platform}
    (n n' : laser_merger2) (evs : list event) (points : list SCAN_POINT_t) :
  drain n = (evs, Ok (points, n')) ->
  (points = [] ->
     laser_merge_cycle n = (evs ++ [EvSleep], Ok n')
     /\ filter (fun e => is_publish e = true) (laser_merge_cycle n).1 = [])
  /\ (filter (fun e => is_publish e = true) (laser_merge_cycle n).1 <> [] ->
      points <> []).
Proof.
  intros Hd.
  assert (Hevs : filter (fun e => is_publish e = true) evs = []).
  { pose proof (drain_no_publish n) as H. now rewrite Hd in H. }
  assert (H0 : points = [] ->
     laser_merge_cycle n = (evs ++ [EvSleep], Ok n')
     /\ filter (fun e => is_publish e = true) (laser_merge_cycle n).1 = []).
  { intros ->. rewrite (laser_merge_cycle_spec n _ _ _ Hd). cbn.
    split; [reflexivity|].
    now rewrite filter_app, Hevs. }
  split; [exact H0|].
  intros Hne ->. now destruct (H0 eq_refl).
Qed.

(* ================================================================== *)
(** * Sources whose transform is unknown, and mixed intensities *)

Section Sources.
Context `{P : Platform}.

(** The points of one scan all carry an intensity, or none does. *)
Lemma scantoPointXYZ_intensity n scan p :
  p ∈ scantoPointXYZ n scan ->
  has_value (intensity p)
  = Nat.eqb (length (intensities scan)) (length (ranges scan)).
Proof.
  unfold scantoPointXYZ.
  destruct (tf2_ n _ _) as [t|]; [|now intros ?%elem_of_nil].
  intros ([i r] & Hir & Hp)%list_elem_of_omap.
  apply elem_of_lookup_imap in Hir as (j & r' & [= -> ->] & Hj).
  unfold scan_sample in Hp.
  destruct (_ || _); [discriminate|].
  destruct (mat_vec _ _) as [[[px py] pz] pw].
  injection Hp as <-. cbn.
  destruct (Nat.eqb_spec (length (intensities scan)) (length (ranges scan)))
    as [Hlen|_]; [|reflexivity].
  apply lookup_lt_Some in Hj. rewrite <- Hlen in Hj.
  now destruct (lookup_lt_is_Some_2 _ _ Hj) as [v ->].
Qed.

(** The rows of a cloud with the intensity field, for points that all
    carry an intensity. *)
Lemma traverse_cloud_point pts :
  (forall p, p ∈ pts -> has_value (intensity p) = true) ->
  exists rows, traverse (cloud_point true) pts = Ok rows
               /\ Forall2 (full_row_of true) pts rows.
Proof.
  induction pts as [|p pts IH]; intros H; cbn.
  - exists []. split; [reflexivity|constructor].
  - destruct IH as (rows & -> & Hrows).
    { intros q Hq. apply H. now right. }
    pose proof (H p ltac:(left)) as Hp. unfold cloud_point.
    destruct (intensity p) as [v|] eqn:Ev; [|discriminate]. cbn.
    eexists. split; [reflexivity|]. constructor; [|exact Hrows].
    repeat split. cbn. now rewrite Ev.
Qed.

(** A point without intensity stops the filling of a cloud that has the
    intensity field. *)
Lemma traverse_cloud_point_throws pts q :
  q ∈ pts -> intensity q = None ->
  traverse (cloud_point true) pts = Throw bad_optional_access.
Proof.
  intros Hq Hi. induction pts as [|p pts IH]; [now apply elem_of_nil in Hq|].
  cbn. unfold cloud_point at 1.
  destruct (intensity p) as [v|] eqn:E; cbn; [|reflexivity].
  apply elem_of_cons in Hq as [->|Hq]; [congruence|].
  now rewrite (IH Hq).
Qed.

Lemma buffer_put_two (ka kb : string) (sa sb : LaserScan) :
  ka <> kb ->
  buffer_put kb sb (buffer_put ka sa []) = [(ka, sa); (kb, sb)]
  \/ buffer_put kb sb (buffer_put ka sa []) = [(kb, sb); (ka, sa)].
Proof.
  intros Hne. cbn.
  destruct (String.compare kb ka) eqn:E; auto.
  apply String.compare_eq_iff in E. congruence.
Qed.

End Sources.

(** C5 (the code at a source without intensities).  Two scans arrive from
    two frames; tf2 knows the transform of the second frame only.  In the
    next turn of the worker loop both scans are converted under the lock, the
    first one gives no point and raises nothing, and the fused points are the
    points of the second scan, one for every sample that passes the range
    gate.  What is published depends on the second scan.  When it has no
    intensity for every range, its points carry none, line 256 announces a
    fourth field that it does not pass, and the turn ends there: neither a
    cloud nor a scan is published.  When it has one, the cloud of exactly
    these points is published, and the scan projection runs on the same
    points. *)
Theorem failed_lookup_drops_only_its_source `{P : Platform}
    (n0 : laser_merger2) (sa sb : LaserScan) (t : TransformStamped) :
  scanBuffer n0 = [] ->
  pointCloudBuffer n0 = [] ->
  frame_id (scan_header sa) <> frame_id (scan_header sb) ->
  tf2_ n0 (target_frame_ n0) (frame_id (scan_header sa)) = None ->
  tf2_ n0 (target_frame_ n0) (frame_id (scan_header sb)) = Some t ->
  let n := (scanCallback sb (scanCallback sa n0).1).1 in
  let points := scantoPointXYZ n sb in
  let n' := set_pointCloudBuffer [] (set_scanBuffer [] n) in
  let evs := EvLock :: (EvScanToPoints <$> (scanBuffer n).*1) ++ [EvUnlock] in
  scantoPointXYZ n sa = []
  /\ (scanBuffer n).*1
     ≡ₚ [frame_id (scan_header sa); frame_id (scan_header sb)]
  /\ length points
     = length (filter (fun r => Fp.le r (range_min sb)
                                || Fp.ge r (range_max sb) = false)
                 (ranges sb))
  /\ drain n = (evs, Ok (points, n'))
  /\ (points <> [] ->
      length (intensities sb) <> length (ranges sb) ->
      laser_merge_cycle n = (evs, Undefined))
  /\ (points <> [] ->
      length (intensities sb) = length (ranges sb) ->
      exists c,
        laser_merge_cycle n
        = bind (evs ++ [EvPublishCloud c], Ok tt)
            (fun _ => ConvertLaserScan n' points ;; emit EvSleep ;; ret n')
        /\ cloud_header c = {| stamp := stamp (scan_header sb);
                               frame_id := target_frame_ n0 |}
        /\ fields c = ["x"; "y"; "z"; "intensity"]
        /\ width c = length points
        /\ Forall2 (full_row_of true) points (cloud_points c)).
Proof.
  intros Hs Hc Hne Ha Hb n points n' evs.
  assert (Hla : scantoPointXYZ n sa = []) by now apply scantoPointXYZ_lost.
  assert (Hsb : scanBuffer n
                = buffer_put (frame_id (scan_header sb)) sb
                    (buffer_put (frame_id (scan_header sa)) sa []))
    by (cbn; now rewrite Hs).
  assert (Hcb : pointCloudBuffer n = []) by exact Hc.
  assert (Hkeys : (scanBuffer n).*1
                  ≡ₚ [frame_id (scan_header sa); frame_id (scan_header sb)]).
  { rewrite Hsb. destruct (buffer_put_two _ _ sa sb Hne) as [-> | ->]; cbn;
      [reflexivity|apply perm_swap]. }
  assert (Hpts : concat (scantoPointXYZ n <$> (scanBuffer n).*2) = points).
  { rewrite Hsb.
    destruct (buffer_put_two _ _ sa sb Hne) as [-> | ->];
      cbn [fmap list_fmap concat app fst snd]; rewrite Hla;
      cbn [app]; now rewrite ?app_nil_r. }
  assert (Hd : drain n = (evs, Ok (points, n'))).
  { destruct (drain_cases n)
      as [(pss & Et & ->)|(before & k & c & after & pss & Eb & _)].
    - rewrite Hcb in Et |- *. injection Et as <-. cbn [fmap list_fmap concat].
      now rewrite Hpts, app_nil_r.
    - rewrite Hcb in Eb. now destruct before. }
  assert (Hint : forall p, p ∈ points ->
            has_value (intensity p)
            = Nat.eqb (length (intensities sb)) (length (ranges sb))).
  { intros p Hp. now apply (scantoPointXYZ_intensity n sb). }
  split; [exact Hla|]. split; [exact Hkeys|].
  split; [now apply scantoPointXYZ_length with t|].
  split; [exact Hd|]. split.
  - intros Hnil Hlen. rewrite (laser_merge_cycle_spec n _ _ _ Hd).
    destruct points as [|p0 rest] eqn:E; [congruence|].
    unfold publish_points. rewrite ConvertPointCloud2_unfold.
    rewrite (Hint p0 ltac:(left)).
    apply Nat.eqb_neq in Hlen. rewrite Hlen. cbn.
    now rewrite app_nil_r.
  - intros Hnil Hlen. rewrite (laser_merge_cycle_spec n _ _ _ Hd).
    apply Nat.eqb_eq in Hlen. rewrite Hlen in Hint.
    destruct (traverse_cloud_point points Hint) as (rows & Hrows & Hfull).
    destruct points as [|p0 rest] eqn:E; [congruence|].
    unfold publish_points. rewrite ConvertPointCloud2_unfold.
    rewrite (Hint p0 ltac:(left)), Hrows.
    eexists. split.
    { destruct (ConvertLaserScan n' (p0 :: rest)) as [tr [[]| |]]; cbn;
        rewrite <- ?app_assoc; reflexivity. }
    repeat split. exact Hfull.
Qed.

(** C10 (the code at a mixed set).  When the first point carries an
    intensity and a later one does not, [ConvertPointCloud2] calls [value()]
    on the empty optional of that point (line 274): it throws
    [bad_optional_access], nothing is published, and the exception leaves
    the turn of the worker loop. *)
Theorem mixed_intensity_throws `{P : Platform}
    (n : laser_merger2) (p0 q : SCAN_POINT_t) (rest : list SCAN_POINT_t) :
  has_value (intensity p0) = true ->
  q ∈ rest ->
  intensity q = None ->
  ConvertPointCloud2 n (p0 :: rest) = ([], Throw bad_optional_access)
  /\ publish_points n (p0 :: rest) = ([], Throw bad_optional_access).
Proof.
  intros H0 Hq Hi.
  assert (E : ConvertPointCloud2 n (p0 :: rest)
              = ([], Throw bad_optional_access)).
  { rewrite ConvertPointCloud2_unfold, H0.
    rewrite (traverse_cloud_point_throws (p0 :: rest) q); [reflexivity| |exact Hi].
    now right. }
  split; [exact E|]. unfold publish_points. now rewrite E.
Qed.

(* ================================================================== *)
(** * The theorems on concrete inputs *)

Section Concrete.
Import Examples.
#[local] Open Scope float_scope.

(** Two points on the x axis, at ranges 1 and 2, fall into bin 2 of the
    four bins of the window [-1, 1]: the bin holds the intensity of the
    point processed last. *)
Lemma ConvertLaserScan_intensity_last_hit_witness :
  intensities (@small_scan robot [infinity; infinity; 1; infinity] [0; 0; 7; 0])
    !! 2%nat
  = match last (@bin_hits robot (window (-1) 1 0.5)
                  (@small_scan robot [infinity; infinity; 1; infinity]
                     [0; 0; 7; 0]) 2
                  [pt 1 0 0 (Some 5); pt 2 0 0 (Some 7)]) with
    | Some p => @narrow robot <$> intensity p
    | None => Some 0
    end.
Proof.
  apply (@ConvertLaserScan_intensity_last_hit robot (window (-1) 1 0.5)).
  - vm_compute. reflexivity.
  - reflexivity.
  - vm_compute. lia.
Defined.

(** C1 (the code at two points of one bin).  With the default parameters
    the points (1, 0) and (2, 0), of intensities 5 and 7, fall into bin
    180.  The first one sets the range of the bin to 1; the second one, at
    range 2, does not lower it, and still the bin ends with its intensity
    7, not with the intensity 5 of the point that set the range. *)
Theorem intensity_of_a_farther_point :
  exists s,
    @ConvertLaserScan robot (default_node no_tf)
      [pt 1 0 0 (Some 5); pt 2 0 0 (Some 7)] = ([EvPublishScan s], Ok tt)
    /\ ranges s !! 180%nat = Some 1
    /\ Fp.lt (@hypot robot 2 0) 1 = false
    /\ intensities s !! 180%nat = Some 7.
Proof.
  eexists. split; [vm_compute; reflexivity|].
  repeat split.
Qed.

(** C2, counterexample.  In the window [-1, 0] with increment 0.3 the
    point (1, 0) has the angle 0 = [angle_max], and it is kept, in bin 3;
    in the window [0, 1] the same point has the angle [angle_min], and it
    is kept, in bin 0.  The same holds when the point carries an intensity,
    which then is written to the bin as well. *)
Lemma points_on_the_window_bounds_are_kept :
  (exists s,
     @ConvertLaserScan robot (window (-1) 0 0.3) [pt 1 0 0 None]
     = ([EvPublishScan s], Ok tt)
     /\ @atan2 robot 0 1 = angle_max s
     /\ ranges s !! 3%nat = Some 1)
  /\ (exists s,
       @ConvertLaserScan robot (window 0 1 0.3) [pt 1 0 0 None]
       = ([EvPublishScan s], Ok tt)
       /\ @atan2 robot 0 1 = angle_min s
       /\ ranges s !! 0%nat = Some 1)
  /\ (exists s,
       @ConvertLaserScan robot (window (-1) 0 0.3) [pt 1 0 0 (Some 5)]
       = ([EvPublishScan s], Ok tt)
       /\ @atan2 robot 0 1 = angle_max s
       /\ ranges s !! 3%nat = Some 1
       /\ intensities s !! 3%nat = Some 5)
  /\ (exists s,
       @ConvertLaserScan robot (window 0 1 0.3) [pt 1 0 0 (Some 5)]
       = ([EvPublishScan s], Ok tt)
       /\ @atan2 robot 0 1 = angle_min s
       /\ ranges s !! 0%nat = Some 1
       /\ intensities s !! 0%nat = Some 5).
Proof.
  repeat (split; [eexists; split; [vm_compute; reflexivity|]; repeat split|]).
  eexists; split; [vm_compute; reflexivity|]; repeat split.
Qed.

Lemma ConvertLaserScan_ranges_permutation_witness :
  Forall2 Fp.same
    (ranges (@small_scan ideal [infinity; infinity; 1; infinity] []))
    (ranges (@small_scan ideal [infinity; infinity; 1; infinity] [])).
Proof.
  apply (@ConvertLaserScan_ranges_permutation ideal (window (-1) 1 0.5)
           [pt 1 0 0 None; pt 2 0 0 None] [pt 2 0 0 None; pt 1 0 0 None]).
  - intros a b H. exact H.
  - reflexivity.
  - apply perm_swap.
  - vm_compute. reflexivity.
  - vm_compute. reflexivity.
Defined.

(** The scan of the specification, with the ranges 1, 50 and 0.05 between
    the bounds 0.06 and 30: one sample passes the gate. *)
Lemma scantoPointXYZ_range_gate_witness :
  tf2_ (default_node tf_but_lost) "base_link" "A" = Some identity
  /\ length (@scantoPointXYZ robot (default_node tf_but_lost)
               (scan_of "A" [1; 50; 0.05] [])) = 1%nat.
Proof.
  split; [reflexivity|].
  rewrite (proj2 (proj2 (proj2 (proj2
    (@scantoPointXYZ_range_gate robot (default_node tf_but_lost)
       (scan_of "A" [1; 50; 0.05] []) identity eq_refl))))).
  vm_compute. reflexivity.
Defined.

(** The scan of the frame "lost" cannot be transformed, the scan of the
    frame "front" can, gives one point and has no intensities: both are
    converted, and the turn ends at line 256 without a publication. *)
Lemma failed_lookup_drops_only_its_source_witness :
  @laser_merge_cycle robot
    (scanCallback (scan_of "front" [2] [])
       (scanCallback (scan_of "lost" [1] []) (default_node tf_but_lost)).1).1
  = ([EvLock; EvScanToPoints "front"; EvScanToPoints "lost"; EvUnlock],
     Undefined).
Proof.
  apply (@failed_lookup_drops_only_its_source robot
           (default_node tf_but_lost) (scan_of "lost" [1] [])
           (scan_of "front" [2] []) identity).
  - reflexivity.
  - reflexivity.
  - cbn. discriminate.
  - reflexivity.
  - reflexivity.
  - vm_compute. discriminate.
  - cbn. discriminate.
Defined.

(** The same two sources when the scan of "front" has an intensity for its
    range: its point, and nothing of the other scan, is published as a
    cloud and as a scan. *)
Example the_other_source_is_published :
  exists c s,
    @laser_merge_cycle robot
      (scanCallback (scan_of "front" [2] [7])
         (scanCallback (scan_of "lost" [1] [3]) (default_node tf_but_lost)).1).1
    = ([EvLock; EvScanToPoints "front"; EvScanToPoints "lost"; EvUnlock;
        EvPublishCloud c; EvPublishScan s; EvSleep],
       Ok (set_laserTime {| sec := 1; nanosec := 0 |}
             (default_node tf_but_lost)))
    /\ cloud_points c
       = [{| c_x := 2; c_y := 0; c_z := 0; c_intensity := 7 |}]
    /\ filter (fun r => Fp.lt r infinity = true) (ranges s) = [2]
    /\ intensities s !! 180%nat = Some 7.
Proof.
  eexists _, _. split; [vm_compute; reflexivity|].
  repeat split; vm_compute; reflexivity.
Qed.

Lemma no_points_no_publication_witness :
  @laser_merge_cycle robot (with_scans tf_but_lost [scan_of "lost" [1] []])
  = ([EvLock; EvScanToPoints "lost"; EvUnlock; EvSleep],
     Ok (set_laserTime {| sec := 1; nanosec := 0 |}
           (default_node tf_but_lost))).
Proof.
  apply (@no_points_no_publication robot
           (with_scans tf_but_lost [scan_of "lost" [1] []])
           (set_laserTime {| sec := 1; nanosec := 0 |}
              (default_node tf_but_lost))
           [EvLock; EvScanToPoints "lost"; EvUnlock] []).
  - vm_compute. reflexivity.
  - reflexivity.
Defined.

Lemma intensities_allocated_by_first_point_witness :
  length (intensities
            (@small_scan robot [infinity; infinity; 1; infinity] [0; 0; 7; 0]))
  = if has_value (intensity (pt 1 0 0 (Some 5)))
    then length (ranges (@small_scan robot
                           [infinity; infinity; 1; infinity] [0; 0; 7; 0]))
    else 0%nat.
Proof.
  apply (@intensities_allocated_by_first_point robot (window (-1) 1 0.5)
           (pt 1 0 0 (Some 5)) [pt 2 0 0 (Some 7)]).
  vm_compute. reflexivity.
Defined.

(** C7, counterexample.  The second point carries an intensity, the
    first one does not: the scan has 360 ranges and no intensities. *)
Lemma intensity_of_later_points_is_ignored :
  exists s,
    @ConvertLaserScan robot (default_node no_tf)
      [pt 1 0 0 None; pt 2 0 0 (Some 7)] = ([EvPublishScan s], Ok tt)
    /\ length (ranges s) = 360%nat
    /\ intensities s = [].
Proof.
  eexists. split; [vm_compute; reflexivity|]. repeat split.
Qed.


Lemma mixed_intensity_throws_witness :
  @ConvertPointCloud2 robot (default_node no_tf)
    [pt 1 0 0 (Some 5); pt 2 0 0 None] = ([], Throw bad_optional_access)
  /\ @publish_points robot (default_node no_tf)
       [pt 1 0 0 (Some 5); pt 2 0 0 None] = ([], Throw bad_optional_access).
Proof.
  apply (@mixed_intensity_throws robot (default_node no_tf)
           (pt 1 0 0 (Some 5)) (pt 2 0 0 None)).
  - reflexivity.
  - apply list_elem_of_here.
  - reflexivity.
Defined.

(** C9 (the code at a point on [angle_max]).  In the window [-1, 0] with
    increment 0.5 the scan has [ceil (1 / 0.5) = 2] bins.  The point (1, 0)
    has the angle 0 = [angle_max]: line 321 does not skip it, its index is
    [(0 + 1) / 0.5 = 2], and [ranges[2]] is outside the array.  With the
    default parameters and single precision fields the scan has 360 bins,
    and the point (-1, 0), of angle pi, has the index 360. *)
Theorem bin_index_reaches_ranges_size :
  (exists m0,
     @empty_scan robot (window (-1) 0 0.5) false = Ok m0
     /\ length (ranges m0) = 2%nat
     /\ @atan2 robot 0 1 = angle_max m0
     /\ out_of_view (window (-1) 0 0.5) m0
          (@hypot robot 1 0) (@atan2 robot 0 1) = false
     /\ bin_index m0 (@atan2 robot 0 1) = Ok 2%Z
     /\ @ConvertLaserScan robot (window (-1) 0 0.5) [pt 1 0 0 None]
        = ([], Undefined))
  /\ (exists m0,
       @empty_scan robot (default_node no_tf) false = Ok m0
       /\ length (ranges m0) = 360%nat
       /\ out_of_view (default_node no_tf) m0
            (@hypot robot (-1) 0) (@atan2 robot 0 (-1)) = false
       /\ bin_index m0 (@atan2 robot 0 (-1)) = Ok 360%Z
       /\ @ConvertLaserScan robot (default_node no_tf) [pt (-1) 0 0 None]
          = ([], Undefined)).
Proof.
  split; (eexists; split; [vm_compute; reflexivity|]);
    repeat split; vm_compute; reflexivity.
Qed.

(** Two scans, one with intensities and one without, buffered for the same
    turn: the turn ends with the exception, after the unlock and before
    any publication. *)
Example mixed_sources_stop_the_worker :
  @laser_merge_cycle robot
    (with_scans tf_but_lost
       [scan_of "front" [1] [5]; scan_of "rear" [2] []])
  = ([EvLock; EvScanToPoints "front"; EvScanToPoints "rear"; EvUnlock],
     Throw bad_optional_access).
Proof. vm_compute. reflexivity. Qed.

(** The scenario of the specification, for a scan with intensities: one
    scan with the ranges 1, 50 and 0.05 gives one point, and the scan that
    is published has one finite range. *)
Example one_sample_in_the_gate :
  exists c s,
    @laser_merge_cycle ideal
      (with_scans tf_but_lost [scan_of "A" [1; 50; 0.05] [5; 6; 7]])
    = ([EvLock; EvScanToPoints "A"; EvUnlock;
        EvPublishCloud c; EvPublishScan s; EvSleep],
       Ok (set_laserTime {| sec := 1; nanosec := 0 |}
             (default_node tf_but_lost)))
    /\ length (cloud_points c) = 1%nat
    /\ filter (fun r => Fp.lt r infinity = true) (ranges s) = [1].
Proof.
  eexists _, _. split; [vm_compute; reflexivity|].
  split; vm_compute; reflexivity.
Qed.

(** Ranges 4 and 2.5 in one bin give 2.5 in both orders. *)
Example nearest_point_wins :
  @ConvertLaserScan robot (window (-1) 1 0.5) [pt 4 0 0 None; pt 2.5 0 0 None]
  = ([EvPublishScan
        (@small_scan robot [infinity; infinity; 2.5; infinity] [])], Ok tt)
  /\ @ConvertLaserScan robot (window (-1) 1 0.5)
       [pt 2.5 0 0 None; pt 4 0 0 None]
     = ([EvPublishScan
           (@small_scan robot [infinity; infinity; 2.5; infinity] [])], Ok tt).
Proof. split; vm_compute; reflexivity. Qed.

End Concrete.


(* ================================================================== *)
(** * The buffers of the callbacks *)

Section Buffers.
Context {T : Type}.

Lemma compare_refl (k : string) : String.compare k k = Eq.
Proof.
  induction k as [|a k IH]; [reflexivity|]. cbn.
  unfold Ascii.compare. now rewrite N.compare_refl.
Qed.

Lemma compare_lt_trans (a b c : string) :
  String.compare a b = Lt -> String.compare b c = Lt ->
  String.compare a c = Lt.
Proof.
  revert b c. induction a as [|ca a IH]; intros [|cb b] [|cc c]; cbn;
    try discriminate; try reflexivity.
  destruct (Ascii.compare ca cb) eqn:E1; try discriminate;
    destruct (Ascii.compare cb cc) eqn:E2; try discriminate.
  - apply Ascii.compare_eq_iff in E1, E2. subst.
    unfold Ascii.compare. rewrite N.compare_refl. apply IH.
  - apply Ascii.compare_eq_iff in E1. subst. now rewrite E2.
  - apply Ascii.compare_eq_iff in E2. subst. now rewrite E1.
  - intros _ _. unfold Ascii.compare in *.
    apply N.compare_lt_iff in E1, E2.
    now rewrite (proj2 (N.compare_lt_iff _ _) (N.lt_trans _ _ _ E1 E2)).
Qed.

Lemma buffer_get_put_eq (k : string) (v : T) (m : buffer T) :
  buffer_get k (buffer_put k v m) = Some v.
Proof.
  induction m as [|[k' v'] m IH]; cbn.
  - now rewrite String.eqb_refl.
  - destruct (String.compare k k') eqn:E; cbn.
    + now rewrite String.eqb_refl.
    + now rewrite String.eqb_refl.
    + destruct (String.eqb_spec k k') as [->|_]; [|exact IH].
      now rewrite compare_refl in E.
Qed.

Lemma buffer_get_put_ne (j k : string) (v : T) (m : buffer T) :
  j <> k -> buffer_get j (buffer_put k v m) = buffer_get j m.
Proof.
  intros Hne. induction m as [|[k' v'] m IH]; cbn.
  - now destruct (String.eqb_spec j k).
  - destruct (String.compare k k') eqn:E; cbn.
    + apply String.compare_eq_iff in E. subst k'.
      now destruct (String.eqb_spec j k).
    + now destruct (String.eqb_spec j k).
    + now rewrite IH.
Qed.

Lemma buffer_put_put (k : string) (v1 v2 : T) (m : buffer T) :
  buffer_put k v2 (buffer_put k v1 m) = buffer_put k v2 m.
Proof.
  induction m as [|[k' v'] m IH]; cbn.
  - now rewrite compare_refl.
  - destruct (String.compare k k') eqn:E; cbn.
    + now rewrite compare_refl.
    + now rewrite compare_refl.
    + now rewrite E, IH.
Qed.

Lemma buffer_put_keys (k : string) (v : T) (m : buffer T) (e : string * T) :
  e ∈ buffer_put k v m -> e = (k, v) \/ e ∈ m.
Proof.
  induction m as [|[k' v'] m IH]; cbn.
  - intros ->%list_elem_of_singleton. now left.
  - destruct (String.compare k k').
    + intros [->|He]%elem_of_cons; [now left|]. right. now right.
    + intros [->|He]%elem_of_cons; [now left|]. now right.
    + intros [->|He]%elem_of_cons; [right; left|].
      destruct (IH He); [now left|]. right. now right.
Qed.

Lemma buffer_put_sorted (k : string) (v : T) (m : buffer T) :
  sorted_buffer m -> sorted_buffer (buffer_put k v m).
Proof.
  unfold sorted_buffer.
  induction 1 as [|[k' v'] m Hs IH Hall]; cbn.
  - repeat constructor.
  - destruct (String.compare k k') eqn:E.
    + apply String.compare_eq_iff in E. subst k'. now constructor.
    + constructor; [now constructor|]. constructor; [exact E|].
      eapply Forall_impl; [exact Hall|]. intros [k2 v2]. unfold key_lt. cbn.
      now apply compare_lt_trans.
    + constructor; [exact IH|].
      apply Forall_forall. intros e [->|He]%buffer_put_keys.
      * unfold key_lt. cbn. rewrite String.compare_antisym, E. reflexivity.
      * now apply (proj1 (Forall_forall _ _) Hall).
Qed.

Lemma sorted_buffer_NoDup (m : buffer T) : sorted_buffer m -> NoDup m.*1.
Proof.
  induction 1 as [|[k v] m Hs IH Hall]; cbn; constructor; [|exact IH].
  intros ([k' v'] & Hk & He)%list_elem_of_fmap. cbn in Hk. subst k'.
  apply (proj1 (Forall_forall _ _) Hall) in He.
  unfold key_lt in He. cbn in He. now rewrite compare_refl in He.
Qed.

End Buffers.

(** X1.  A callback stores the message under the frame of its header, takes
    its stamp as the time of the node, and leaves the messages of the other
    frames and the other buffer as they are. *)
Theorem callbacks_store_under_frame_id
    (n : laser_merger2) (scan : LaserScan) (cloud : PointCloud2) :
  (let n' := (scanCallback scan n).1 in
   buffer_get (frame_id (scan_header scan)) (scanBuffer n') = Some scan
   /\ (forall k, k <> frame_id (scan_header scan) ->
                 buffer_get k (scanBuffer n') = buffer_get k (scanBuffer n))
   /\ laserTime n' = stamp (scan_header scan)
   /\ pointCloudBuffer n' = pointCloudBuffer n)
  /\ (let n' := (pointCloudCallback cloud n).1 in
      buffer_get (frame_id (cloud_header cloud)) (pointCloudBuffer n')
      = Some cloud
      /\ (forall k, k <> frame_id (cloud_header cloud) ->
                    buffer_get k (pointCloudBuffer n')
                    = buffer_get k (pointCloudBuffer n))
      /\ laserTime n' = stamp (cloud_header cloud)
      /\ scanBuffer n' = scanBuffer n).
Proof.
  split; cbn; repeat split;
    auto using buffer_get_put_eq, buffer_get_put_ne.
Qed.

(** X2.  The callbacks keep the buffers in strictly increasing order of
    frame, so that a buffer never holds two messages of one frame. *)
Theorem callbacks_keep_one_slot_per_frame
    (n : laser_merger2) (scan : LaserScan) (cloud : PointCloud2) :
  sorted_buffer (scanBuffer n) ->
  sorted_buffer (pointCloudBuffer n) ->
  let n1 := (scanCallback scan n).1 in
  let n2 := (pointCloudCallback cloud n).1 in
  (sorted_buffer (scanBuffer n1) /\ NoDup (scanBuffer n1).*1
   /\ sorted_buffer (pointCloudBuffer n1))
  /\ (sorted_buffer (pointCloudBuffer n2) /\ NoDup (pointCloudBuffer n2).*1
      /\ sorted_buffer (scanBuffer n2)).
Proof.
  intros Hs Hc. cbn. repeat split;
    auto using buffer_put_sorted, sorted_buffer_NoDup.
Qed.

(** X3.  Of two scans of one frame that arrive between two turns of the
    worker, only the later one is kept: the buffer is the one that the later
    scan alone would have left. *)
Theorem later_scan_replaces_earlier
    (n : laser_merger2) (s1 s2 : LaserScan) :
  frame_id (scan_header s1) = frame_id (scan_header s2) ->
  scanBuffer (scanCallback s2 (scanCallback s1 n).1).1
  = scanBuffer (scanCallback s2 n).1.
Proof.
  intros H. cbn. rewrite H. apply buffer_put_put.
Qed.


(* ================================================================== *)
(** * The subscriptions of the constructor *)

Lemma subscribe_nil (topics : list string) :
  subscribe topics = [] <-> Forall (fun topic => topic = "") topics.
Proof.
  unfold subscribe. split.
  - intros H. apply Forall_forall. intros t Ht.
    destruct (decide (t = "")) as [|Hne]; [assumption|].
    now destruct (filter_nil_not_elem_of _ _ t H Hne).
  - intros H. apply filter_none. intros t Ht Hne.
    now apply Hne, (proj1 (Forall_forall _ _) H).
Qed.

(** X4.  The constructor throws its [runtime_error] exactly when every
    configured topic name, of scans and of clouds, is empty.  Otherwise it
    subscribes, in the order of the lists, to the topics whose name is not
    empty, and to nothing else. *)
Theorem constructor_needs_a_topic (scan_topics point_cloud_topics : list string) :
  (create_subscriptions scan_topics point_cloud_topics = inl error_message
   <-> Forall (fun topic => topic = "") scan_topics
       /\ Forall (fun topic => topic = "") point_cloud_topics)
  /\ (forall laser_sub point_cloud_sub,
        create_subscriptions scan_topics point_cloud_topics
        = inr (laser_sub, point_cloud_sub) ->
        laser_sub = filter (fun topic => topic <> "") scan_topics
        /\ point_cloud_sub = filter (fun topic => topic <> "") point_cloud_topics
        /\ 0 < length laser_sub + length point_cloud_sub).
Proof.
  unfold create_subscriptions. rewrite <- !subscribe_nil.
  fold (subscribe scan_topics) (subscribe point_cloud_topics).
  destruct (subscribe scan_topics) as [|t l], (subscribe point_cloud_topics)
    as [|t' l']; (split; [split|]);
    try (intros [? ?]); try discriminate; try (intros ? ? [= <- <-]);
    try intros _; repeat split; cbn; try lia; try discriminate.
Qed.

(* ================================================================== *)
(** * rgb_to_uint32 *)

Lemma lor_shifted_byte (a b k : Z) :
  (0 <= k)%Z -> (0 <= b < 2 ^ k)%Z ->
  Z.lor (a * 2 ^ k) b = (a * 2 ^ k + b)%Z.
Proof.
  intros Hk Hb. rewrite <- Z.lxor_lor, Z.add_nocarry_lxor; try reflexivity.
  all: apply Z.bits_inj'; intros n Hn; rewrite Z.land_spec, Z.bits_0.
  all: rewrite <- Z.shiftl_mul_pow2 by lia.
  all: destruct (Z.lt_ge_cases n k) as [Hlt|Hge].
  all: try (rewrite Z.shiftl_spec_low by lia; reflexivity).
  all: apply andb_false_intro2.
  all: destruct (Z.eq_dec b 0%Z) as [->|Hne]; [apply Z.bits_0|].
  all: apply Z.bits_above_log2; [lia|].
  all: apply Z.log2_lt_pow2; [lia|].
  all: assert (2 ^ k <= 2 ^ n)%Z by (apply Z.pow_le_mono_r; lia); lia.
Qed.

(** X5.  For three bytes, [rgb_to_uint32] is [r * 65536 + g * 256 + b]: a
    value below [2^24] from which each of the three bytes is read back. *)
Theorem rgb_to_uint32_bytes (r g b : Z) :
  (0 <= r < 256)%Z -> (0 <= g < 256)%Z -> (0 <= b < 256)%Z ->
  rgb_to_uint32 r g b = (r * 65536 + g * 256 + b)%Z
  /\ (0 <= rgb_to_uint32 r g b < 2 ^ 24)%Z
  /\ byte_at (rgb_to_uint32 r g b) 16 = r
  /\ byte_at (rgb_to_uint32 r g b) 8 = g
  /\ byte_at (rgb_to_uint32 r g b) 0 = b.
Proof.
  intros Hr Hg Hb.
  assert (E : rgb_to_uint32 r g b = (r * 65536 + g * 256 + b)%Z).
  { unfold rgb_to_uint32, shl32, uint32.
    rewrite !Z.shiftl_mul_pow2 by lia.
    rewrite !(Z.mod_small r), !(Z.mod_small g), !(Z.mod_small b) by lia.
    rewrite !Z.mod_small by lia.
    rewrite (lor_shifted_byte r (g * 2 ^ 8) 16) by lia.
    replace (r * 2 ^ 16 + g * 2 ^ 8)%Z with ((r * 2 ^ 8 + g) * 2 ^ 8)%Z by lia.
    rewrite (lor_shifted_byte (r * 2 ^ 8 + g) b 8) by lia. lia. }
  rewrite E. unfold byte_at.
  change 255%Z with (Z.ones 8).
  rewrite !Z.land_ones, !Z.shiftr_div_pow2 by lia.
  change (2 ^ 16)%Z with 65536%Z. change (2 ^ 8)%Z with 256%Z.
  change (2 ^ 0)%Z with 1%Z. change (2 ^ 24)%Z with 16777216%Z.
  repeat split; try lia.
  all: Z.div_mod_to_equations; lia.
Qed.


(* ================================================================== *)
(** * What the two conversions return *)

(** X6.  The points of one message all carry an intensity or none does.
    The points of a scan carry one exactly when the scan has as many
    intensities as ranges, and then it is an element of that array.  The
    conversion of a cloud that can be transformed throws [runtime_error]
    exactly when the transformed cloud lacks one of the fields x, y, z and
    intensity; when it returns, it gives one point for every row, and the
    points carry an intensity exactly when the cloud that arrived declares
    the field: always, when the transform keeps the fields. *)
Theorem conversions_are_uniform `{P : Platform}
    (n : laser_merger2) (scan : LaserScan) (cloud : PointCloud2) :
  (forall p, p ∈ scantoPointXYZ n scan ->
     has_value (intensity p)
     = Nat.eqb (length (intensities scan)) (length (ranges scan))
     /\ forall v, intensity p = Some v -> v ∈ intensities scan)
  /\ uniform (scantoPointXYZ n scan)
  /\ (forall pts, pointCloudtoPointXYZ n cloud = Ok pts ->
       uniform pts
       /\ forall p, p ∈ pts ->
            has_value (intensity p)
            = bool_decide ("intensity" ∈ fields cloud))
  /\ (forall t,
       transformPointCloud (target_frame_ n) cloud (tf2_ n) = Some t ->
       (pointCloudtoPointXYZ n cloud = Throw runtime_error
        <-> ~ Forall (fun name => name ∈ fields t)
                ["x"; "y"; "z"; "intensity"])
       /\ forall pts, pointCloudtoPointXYZ n cloud = Ok pts ->
            length pts = length (cloud_points t)
            /\ (fields t = fields cloud ->
                forall p, p ∈ pts -> is_Some (intensity p))).
Proof.
  assert (Hc : forall pts p, pointCloudtoPointXYZ n cloud = Ok pts ->
            p ∈ pts ->
            has_value (intensity p) = bool_decide ("intensity" ∈ fields cloud)).
  { intros pts p. pose proof (pointCloudtoPointXYZ_spec n cloud) as H.
    destruct (transformPointCloud _ _ _) as [t|].
    - destruct (bool_decide (Forall _ _)); rewrite H; [|discriminate].
      intros [= <-] (c & -> & _)%list_elem_of_fmap. cbn.
      now destruct (bool_decide _).
    - rewrite H. now intros [= <-] ?%elem_of_nil. }
  split; [|split; [|split]].
  - intros p Hp. split; [eapply scantoPointXYZ_intensity; eassumption|].
    revert Hp. unfold scantoPointXYZ.
    destruct (tf2_ n _ _) as [t|]; [|now intros ?%elem_of_nil].
    intros ([i r] & Hir & Hp)%list_elem_of_omap v Hv.
    unfold scan_sample in Hp. destruct (_ || _); [discriminate|].
    destruct (mat_vec _ _) as [[[px py] pz] pw]. injection Hp as <-.
    cbn in Hv. destruct (Nat.eqb _ _); [|discriminate].
    apply list_elem_of_lookup. eauto.
  - intros p q Hp Hq. now rewrite !(scantoPointXYZ_intensity n scan).
  - intros pts Hpts. split.
    + intros p q Hp Hq. now rewrite (Hc pts p), (Hc pts q).
    + intros p. now apply Hc.
  - intros t Ht. pose proof (pointCloudtoPointXYZ_spec n cloud) as H.
    rewrite Ht in H.
    destruct (bool_decide_reflect
                (Forall (fun name => name ∈ fields t)
                   ["x"; "y"; "z"; "intensity"])) as [Hall|Hall];
      rewrite H; (split; [split; [try discriminate; done|tauto]|]);
      intros pts [= <-].
    rewrite length_fmap. split; [reflexivity|].
    intros Hf p (c & -> & _)%list_elem_of_fmap. cbn.
    rewrite <- Hf. rewrite bool_decide_eq_true_2; [eauto|].
    apply (proj1 (Forall_forall _ _) Hall). rewrite !elem_of_cons. tauto.
Qed.

(* ================================================================== *)
(** * The cloud projection *)

Section Cloud.
Context `{P : Platform}.

Lemma traverse_cloud_point_outcome pts :
  if forallb (fun p => has_value (intensity p)) pts
  then exists rows, traverse (cloud_point true) pts = Ok rows
                    /\ Forall2 (full_row_of true) pts rows
  else traverse (cloud_point true) pts = Throw bad_optional_access.
Proof.
  induction pts as [|p pts IH]; cbn.
  - exists []. split; [reflexivity|constructor].
  - unfold cloud_point at 1 3.
    destruct (intensity p) as [v|] eqn:Ev; cbn; [|reflexivity].
    destruct (forallb _ pts); cbn in *.
    + destruct IH as (rows & -> & Hrows). cbn.
      eexists. split; [reflexivity|]. constructor; [|exact Hrows].
      repeat split. cbn. now rewrite Ev.
    + now rewrite IH.
Qed.

End Cloud.

(** X7.  What [ConvertPointCloud2] does on a non-empty set.  When the first
    point carries no intensity, line 256 announces four fields and passes
    three: the call reads an argument that was not passed, and nothing is
    published.  When the first point carries an intensity and some other
    point does not, it throws [bad_optional_access] (line 274) and publishes
    nothing.  When every point carries an intensity it publishes one cloud,
    of the time and target frame of the node, of height 1, with the fields x,
    y, z and intensity and one row for every point in order (the values in
    single precision). *)
Theorem ConvertPointCloud2_outcome `{P : Platform}
    (n : laser_merger2) (p0 : SCAN_POINT_t) (rest : list SCAN_POINT_t) :
  match intensity p0 with
  | None => ConvertPointCloud2 n (p0 :: rest) = ([], Undefined)
  | Some _ =>
      if forallb (fun p => has_value (intensity p)) rest
      then exists c,
        ConvertPointCloud2 n (p0 :: rest) = ([EvPublishCloud c], Ok tt)
        /\ cloud_header c
           = {| stamp := laserTime n; frame_id := target_frame_ n |}
        /\ height c = 1 /\ width c = S (length rest)
        /\ fields c = ["x"; "y"; "z"; "intensity"]
        /\ Forall2 (full_row_of true) (p0 :: rest) (cloud_points c)
      else ConvertPointCloud2 n (p0 :: rest)
           = ([], Throw bad_optional_access)
  end.
Proof.
  rewrite ConvertPointCloud2_unfold.
  pose proof (traverse_cloud_point_outcome (p0 :: rest)) as H.
  cbn [forallb] in H.
  destruct (intensity p0) as [v|] eqn:Ev; cbn [has_value] in *;
    [|reflexivity].
  cbn [andb] in H. destruct (forallb _ rest).
  - destruct H as (rows & -> & Hrows). cbn.
    eexists. split; [reflexivity|]. cbn. repeat split; assumption.
  - now rewrite H.
Qed.


(* ================================================================== *)
(** * The scan projection, bin by bin *)

Section Ranges.
Context `{P : Platform}.
Import OrderFacts.

Lemma le_trans a b c :
  Fp.le a b = true -> Fp.le b c = true -> Fp.le a c = true.
Proof. intros H1 H2. fp_order. Qed.

Lemma le_refl a : (a =? a)%float = true -> Fp.le a a = true.
Proof. intros H. fp_order. Qed.

Lemma target_Some n g p i r :
  target n g p = Some (i, r) ->
  r = hypot (x p) (y p) /\ in_view n g p = true.
Proof.
  unfold target, in_view. destruct (out_of_view _ _ _ _); [discriminate|].
  destruct (bin_index _ _) as [j| |]; try discriminate.
  destruct (0 <=? j)%Z; [|discriminate]. now intros [= <- <-].
Qed.

Lemma target_in_view n g p :
  in_view n g p = false -> target n g p = None.
Proof.
  unfold target, in_view. now destruct (out_of_view _ _ _ _).
Qed.

Lemma bin_hits_elem n g b pts p :
  p ∈ bin_hits n g b pts
  <-> p ∈ pts /\ exists r, target n g p = Some (b, r).
Proof.
  unfold bin_hits. rewrite list_elem_of_filter. split.
  - intros [H Hp]. split; [exact Hp|].
    destruct (target n g p) as [[i r]|]; [|discriminate].
    injection H as ->. eauto.
  - intros [Hp [r ->]]. now split.
Qed.

(** Where the value of a bin comes from. *)
Lemma foldl_bin_min_lookup ts : forall rs b c,
  foldl bin_min rs ts !! b = Some c ->
  rs !! b = Some c \/ exists r, (b, r) ∈ ts /\ c = narrow r.
Proof.
  induction ts as [|[i r0] ts IH]; intros rs b c; cbn; [now left|].
  intros [H|(r & Hr & ->)]%IH.
  - unfold bin_min in H. cbn in H.
    destruct (decide (i = b)) as [->|Hne].
    + rewrite list_lookup_alter_eq in H.
      destruct (rs !! b) as [c0|]; [|discriminate]. cbn in H.
      injection H as <-. unfold cell_step.
      destruct (Fp.lt r0 c0); [right|now left].
      exists r0. split; [left|reflexivity].
    + rewrite list_lookup_alter_ne in H by assumption. now left.
  - right. exists r. split; [now right|reflexivity].
Qed.

Lemma project_point_scalars n hi m p m' :
  project_point n hi m p = Ok m' ->
  scan_header m' = scan_header m /\ time_increment m' = time_increment m
  /\ scan_time m' = scan_time m /\ range_min m' = range_min m
  /\ range_max m' = range_max m.
Proof.
  unfold project_point.
  destruct (out_of_view _ _ _ _); [now intros [= <-]|].
  destruct (bin_index _ _) as [i| |]; cbn; try discriminate.
  destruct (vec_get _ _) as [c| |]; cbn; try discriminate.
  destruct (Fp.lt _ c); cbn;
    [destruct (vec_set (ranges m) _ _) as [v| |]; cbn; try discriminate|];
    (destruct hi;
     [destruct (value _) as [w| |]; cbn; try discriminate;
      destruct (vec_set _ _ _) as [v'| |]; cbn; try discriminate|]);
    now intros [= <-].
Qed.

Lemma for_each_scalars n hi pts : forall m m',
  for_each (project_point n hi) m pts = Ok m' ->
  scan_header m' = scan_header m /\ time_increment m' = time_increment m
  /\ scan_time m' = scan_time m /\ range_min m' = range_min m
  /\ range_max m' = range_max m.
Proof.
  induction pts as [|p pts IH]; intros m m'; cbn.
  - now intros [= <-].
  - destruct (project_point n hi m p) as [m1| |] eqn:E; cbn;
      try discriminate.
    intros (-> & -> & -> & -> & ->)%IH.
    now apply project_point_scalars in E.
Qed.

(** The points that line 321 skips have no effect on the loop. *)
Lemma for_each_in_view n hi g pts : forall m,
  same_geometry g m ->
  for_each (project_point n hi) m pts
  = for_each (project_point n hi) m
      (filter (fun p => in_view n g p = true) pts).
Proof.
  induction pts as [|p pts IH]; intros m Hg; [reflexivity|].
  rewrite filter_cons. destruct (decide (in_view n g p = true)) as [Hv|Hv].
  - cbn. destruct (project_point n hi m p) as [m1| |] eqn:E; cbn;
      try reflexivity.
    apply IH. destruct (project_point_Ok _ _ _ _ _ E) as [Hg1 _].
    eapply same_geometry_trans; eassumption.
  - cbn. apply not_true_is_false in Hv.
    assert (E : project_point n hi m p = Ok m).
    { unfold project_point. unfold in_view in Hv.
      destruct Hg as (G1 & G2 & _).
      unfold out_of_view in *. rewrite <- G1, <- G2.
      now destruct (_ || _). }
    rewrite E. cbn. now apply IH.
Qed.

End Ranges.

(** X8.  Every range of a published scan is the fill value of the node or
    the range [hypot(x, y)] of a point of the set, in single precision, that
    passed the test of line 321 and whose index is this bin; a bin that no
    point falls into keeps the fill value. *)
Theorem published_ranges_come_from_points `{P : Platform}
    (n : laser_merger2) (pts : list SCAN_POINT_t) (s : LaserScan)
    (b : nat) (c : double) :
  ConvertLaserScan n pts = ([EvPublishScan s], Ok tt) ->
  ranges s !! b = Some c ->
  (c = fill n
   \/ exists p, p ∈ bin_hits n s b pts /\ in_view n s p = true
                /\ c = narrow (hypot (x p) (y p)))
  /\ (bin_hits n s b pts = [] -> c = fill n).
Proof.
  intros Hs Hc.
  destruct (ConvertLaserScan_Ok _ _ _ Hs) as (p0 & rest & m0 & -> & E0 & Ef).
  destruct (empty_scan_Ok _ _ _ E0) as (size & Hr0 & _).
  destruct (for_each_ranges _ _ m0 _ _ _ (same_geometry_refl m0) Ef)
    as [Hg Hr].
  rewrite Hr, Hr0 in Hc.
  assert (H : c = fill n
    \/ exists p, p ∈ bin_hits n s b (p0 :: rest) /\ in_view n s p = true
                 /\ c = narrow (hypot (x p) (y p))).
  { apply foldl_bin_min_lookup in Hc as [Hc|(r & Hr' & ->)].
    - left. apply lookup_replicate in Hc as [-> _]. reflexivity.
    - right. apply list_elem_of_omap in Hr' as (p & Hp & Ht).
      rewrite (target_geometry n m0 s p Hg) in Ht.
      destruct (target_Some _ _ _ _ _ Ht) as [-> Hv].
      exists p. split; [|now split].
      apply bin_hits_elem. eauto. }
  split; [exact H|].
  intros Hnil. destruct H as [H|(p & Hp & _)]; [exact H|].
  rewrite Hnil in Hp. now apply elem_of_nil in Hp.
Qed.

(** X9.  The scan that is published for a set of points is the scan that is
    published for the first point followed by the other points that pass the
    test of line 321: a point that the test skips changes nothing, whatever
    its index or its intensity would be. *)
Theorem skipped_points_change_nothing `{P : Platform}
    (n : laser_merger2) (p0 : SCAN_POINT_t) (rest : list SCAN_POINT_t)
    (m0 : LaserScan) :
  empty_scan n (has_value (intensity p0)) = Ok m0 ->
  ConvertLaserScan n (p0 :: rest)
  = ConvertLaserScan n (p0 :: filter (fun p => in_view n m0 p = true) rest).
Proof.
  intros E0. unfold ConvertLaserScan. rewrite E0.
  cbn [rbind for_each].
  destruct (project_point n _ m0 p0) as [m1| |] eqn:E; cbn; try reflexivity.
  destruct (project_point_Ok _ _ _ _ _ E) as [Hg _].
  now rewrite (for_each_in_view n _ m0 rest m1 Hg).
Qed.

(** X10.  The fields of a published scan: the time and the target frame of
    the node, the parameters of the node in single precision, and as many
    ranges as [ranges_size] computes from these fields; the loop over the
    points changes none of them. *)
Theorem published_scan_shape `{P : Platform}
    (n : laser_merger2) (pts : list SCAN_POINT_t) (s : LaserScan) :
  ConvertLaserScan n pts = ([EvPublishScan s], Ok tt) ->
  scan_header s = {| stamp := laserTime n; frame_id := target_frame_ n |}
  /\ angle_min s = narrow (min_angle n)
  /\ angle_max s = narrow (max_angle n)
  /\ angle_increment s = narrow (angle_increment_ n)
  /\ time_increment s = narrow 0
  /\ scan_time s = narrow (scan_time_ n)
  /\ range_min s = narrow (min_range n)
  /\ range_max s = narrow (max_range n)
  /\ ranges_size s = Ok (length (ranges s)).
Proof.
  intros Hs.
  destruct (ConvertLaserScan_Ok _ _ _ Hs) as (p0 & rest & m0 & -> & E0 & Ef).
  destruct (for_each_scalars _ _ _ _ _ Ef) as (-> & -> & -> & -> & ->).
  destruct (for_each_ranges _ _ m0 _ _ _ (same_geometry_refl m0) Ef)
    as [(G1 & G2 & G3) _].
  destruct (for_each_lengths _ _ _ _ _ Ef) as [-> _].
  unfold ranges_size. rewrite <- G1, <- G2, <- G3.
  revert E0. unfold empty_scan.
  destruct (ranges_size _) as [size| |] eqn:Es; cbn; try discriminate.
  intros [= <-].
  destruct (has_value (intensity p0)), (use_inf n); cbn;
    rewrite length_replicate; repeat split; exact Es.
Qed.


Section Nearest.
Context `{P : Platform}.
Import OrderFacts.
Hypothesis narrow_mono :
  forall a b, Fp.le a b = true -> Fp.le (narrow a) (narrow b) = true.
Hypothesis narrow_idem : forall a, narrow (narrow a) = narrow a.

(** A bin never rises, and stays a single precision value that is not
    NaN. *)
Lemma cell_step_falls c r :
  single c -> (c =? c)%float = true ->
  single (cell_step c r)
  /\ (cell_step c r =? cell_step c r)%float = true
  /\ Fp.le (cell_step c r) c = true.
Proof.
  intros Hc Hn. unfold cell_step. destruct (Fp.lt r c) eqn:E.
  - pose proof (lt_narrow_le narrow_mono r c Hc E) as L.
    split; [apply narrow_idem|]. split; [apply (le_not_nan _ _ L)|exact L].
  - split; [exact Hc|]. split; [exact Hn|now apply le_refl].
Qed.

Lemma cell_step_below c r :
  single c -> (c =? c)%float = true -> (r =? r)%float = true ->
  Fp.le (cell_step c r) (narrow r) = true.
Proof.
  intros Hc Hn Hr. unfold cell_step. destruct (Fp.lt r c) eqn:E.
  - apply le_refl.
    apply (le_not_nan _ _ (lt_narrow_le narrow_mono r c Hc E)).
  - rewrite <- Hc at 1. now apply narrow_mono, not_lt_ge.
Qed.

Lemma bin_min_sound rs t :
  Forall (fun c => single c /\ (c =? c)%float = true) rs ->
  Forall (fun c => single c /\ (c =? c)%float = true) (bin_min rs t).
Proof.
  intros H. apply Forall_alter; [exact H|].
  intros c _ [Hc Hn]. destruct (cell_step_falls c t.2 Hc Hn) as (? & ? & _).
  now split.
Qed.

Lemma foldl_bin_min_falls ts : forall rs b c0,
  Forall (fun c => single c /\ (c =? c)%float = true) rs ->
  rs !! b = Some c0 ->
  exists c, foldl bin_min rs ts !! b = Some c /\ Fp.le c c0 = true.
Proof.
  induction ts as [|[i r] ts IH]; intros rs b c0 Hall Hb; cbn.
  - exists c0. split; [exact Hb|].
    apply le_refl. now apply (proj1 (Forall_lookup _ _) Hall b c0).
  - destruct (proj1 (Forall_lookup _ _) Hall b c0 Hb) as [Hc Hn].
    destruct (decide (i = b)) as [->|Hne].
    + destruct (IH (bin_min rs (b, r)) b (cell_step c0 r))
        as (c & Hl & Hle).
      * now apply bin_min_sound.
      * unfold bin_min. cbn. now rewrite list_lookup_alter_eq, Hb.
      * exists c. split; [exact Hl|].
        eapply le_trans; [exact Hle|].
        apply (cell_step_falls c0 r Hc Hn).
    + apply IH; [exact (bin_min_sound rs (i, r) Hall)|].
      now rewrite list_lookup_alter_ne.
Qed.

Lemma foldl_bin_min_nearest ts : forall rs b r,
  Forall (fun c => single c /\ (c =? c)%float = true) rs ->
  (b, r) ∈ ts -> (r =? r)%float = true -> b < length rs ->
  exists c, foldl bin_min rs ts !! b = Some c
            /\ Fp.le c (narrow r) = true.
Proof.
  induction ts as [|t ts IH]; intros rs b r Hall Hin Hr Hb.
  { now apply elem_of_nil in Hin. }
  apply elem_of_cons in Hin as [<-|Hin]; cbn.
  - destruct (lookup_lt_is_Some_2 rs b Hb) as [c0 Hc0].
    destruct (proj1 (Forall_lookup _ _) Hall b c0 Hc0) as [Hc Hn].
    destruct (foldl_bin_min_falls ts (bin_min rs (b, r)) b (cell_step c0 r))
      as (c & Hl & Hle).
    + now apply bin_min_sound.
    + unfold bin_min. cbn. now rewrite list_lookup_alter_eq, Hc0.
    + exists c. split; [exact Hl|].
      eapply le_trans; [exact Hle|]. now apply cell_step_below.
  - apply IH; try assumption; [exact (bin_min_sound rs t Hall)|].
    now rewrite (bin_min_length rs t).
Qed.

End Nearest.

Lemma for_each_index_in_range `{P : Platform} n hi g pts m m' p i r :
  same_geometry g m ->
  (hi = true -> length (intensities m) = length (ranges m)) ->
  for_each (project_point n hi) m pts = Ok m' ->
  p ∈ pts -> target n g p = Some (i, r) ->
  i < length (ranges m).
Proof.
  intros Hg Hlen Hf Hp Ht.
  assert (Hs : forallb (safe n g (length (ranges m)) hi) pts = true).
  { apply (for_each_safe n hi g pts m Hg Hlen). eauto. }
  rewrite forallb_forall in Hs. specialize (Hs p).
  rewrite <- list_elem_of_In in Hs. specialize (Hs Hp).
  unfold safe in Hs. unfold target in Ht.
  destruct (out_of_view _ _ _ _); [discriminate|]. cbn in Hs.
  destruct (bin_index _ _) as [j| |]; try discriminate.
  destruct (Z.leb_spec 0 j); [|discriminate]. injection Ht as <- _.
  apply andb_true_iff in Hs as [Hs _]. cbn in Hs.
  apply Z.ltb_lt in Hs. lia.
Qed.

(** X11.  The closest point wins: the range that is published for a bin is
    at most the range, in single precision, of every point that fell into
    the bin, and at most the fill value.  (The fill value and the range of
    the point are not NaN; the conversion to single precision is monotone
    and idempotent.) *)
Theorem published_range_is_nearest `{P : Platform}
    (n : laser_merger2) (pts : list SCAN_POINT_t) (s : LaserScan)
    (b : nat) (p : SCAN_POINT_t) :
  (forall a b, Fp.le a b = true -> Fp.le (narrow a) (narrow b) = true) ->
  (forall a, narrow (narrow a) = narrow a) ->
  (fill n =? fill n)%float = true ->
  ConvertLaserScan n pts = ([EvPublishScan s], Ok tt) ->
  p ∈ bin_hits n s b pts ->
  (hypot (x p) (y p) =? hypot (x p) (y p))%float = true ->
  exists c, ranges s !! b = Some c
            /\ Fp.le c (narrow (hypot (x p) (y p))) = true
            /\ Fp.le c (fill n) = true.
Proof.
  intros Hmono Hidem Hfill Hs Hp Hr.
  destruct (ConvertLaserScan_Ok _ _ _ Hs) as (p0 & rest & m0 & -> & E0 & Ef).
  destruct (empty_scan_Ok _ _ _ E0) as (size & Hr0 & Hi0 & _).
  destruct (for_each_ranges _ _ m0 _ _ _ (same_geometry_refl m0) Ef)
    as [Hg Hrs].
  apply bin_hits_elem in Hp as [Hp [r Ht]].
  rewrite <- (target_geometry n m0 s p Hg) in Ht.
  destruct (target_Some _ _ _ _ _ Ht) as [-> _].
  assert (Hall : Forall (fun c => single c /\ (c =? c)%float = true)
                   (ranges m0)).
  { rewrite Hr0. apply Forall_replicate. split; [|exact Hfill].
    unfold single, fill. destruct (use_inf n); apply Hidem. }
  assert (Hb : b < length (ranges m0)).
  { eapply (for_each_index_in_range n _ m0 _ m0);
      [apply same_geometry_refl| |exact Ef|exact Hp|exact Ht].
    intros Hh. now rewrite Hr0, Hi0, Hh, !length_replicate. }
  destruct (foldl_bin_min_nearest Hmono Hidem
              (omap (target n m0) (p0 :: rest)) (ranges m0) b
              (hypot (x p) (y p)) Hall) as (c & Hc & Hle); try assumption.
  { apply list_elem_of_omap. eauto. }
  exists c. rewrite Hrs. split; [exact Hc|]. split; [exact Hle|].
  destruct (foldl_bin_min_falls Hmono Hidem
              (omap (target n m0) (p0 :: rest)) (ranges m0) b (fill n) Hall)
    as (c' & Hc' & Hle').
  { rewrite Hr0. apply lookup_replicate_2.
    now rewrite Hr0, length_replicate in Hb. }
  congruence.
Qed.


(** X12.  When the scan projection publishes.  On a non-empty set it
    publishes a scan exactly when the number of bins is representable and
    every point either is skipped by line 321 or has an index inside the
    ranges and, if the first point carries an intensity, an intensity of
    its own.  When it does not publish it emits nothing. *)
Theorem ConvertLaserScan_publishes_iff `{P : Platform}
    (n : laser_merger2) (p0 : SCAN_POINT_t) (rest : list SCAN_POINT_t) :
  let hi := has_value (intensity p0) in
  ((exists s, ConvertLaserScan n (p0 :: rest) = ([EvPublishScan s], Ok tt))
   <-> exists m0,
         empty_scan n hi = Ok m0
         /\ Forall (fun p =>
               in_view n m0 p = false
               \/ exists i,
                    bin_index m0 (atan2 (y p) (x p)) = Ok i
                    /\ (0 <= i < Z.of_nat (length (ranges m0)))%Z
                    /\ (hi = true -> is_Some (intensity p)))
             (p0 :: rest))
  /\ ((forall s, ConvertLaserScan n (p0 :: rest)
                 <> ([EvPublishScan s], Ok tt)) ->
      (ConvertLaserScan n (p0 :: rest)).1 = []).
Proof.
  intros hi.
  assert (Hsafe : forall m0 p,
    safe n m0 (length (ranges m0)) hi p = true
    <-> in_view n m0 p = false
        \/ exists i, bin_index m0 (atan2 (y p) (x p)) = Ok i
                     /\ (0 <= i < Z.of_nat (length (ranges m0)))%Z
                     /\ (hi = true -> is_Some (intensity p))).
  { intros m0 p. unfold safe, in_view.
    destruct (out_of_view _ _ _ _); cbn; [split; auto|].
    destruct (bin_index _ _) as [i| |]; cbn.
    - rewrite !andb_true_iff, Z.leb_le, Z.ltb_lt, orb_true_iff.
      split.
      + intros [[H1 H2] H3]. right. exists i. repeat split; try lia.
        intros ->. destruct H3 as [H3|H3]; [discriminate|].
        destruct (intensity p); [eauto|discriminate].
      + intros [|(j & [= <-] & Hj & Hi)]; [discriminate|].
        repeat split; try lia.
        destruct hi; [right|now left].
        now destruct (Hi eq_refl) as [v ->].
    - split; [discriminate|]. intros [|(j & [=] & _)]; discriminate.
    - split; [discriminate|]. intros [|(j & [=] & _)]; discriminate. }
  split; [split|].
  - intros [s Hs].
    destruct (ConvertLaserScan_Ok _ _ _ Hs) as (q & rest' & m0 & [= <- <-] & E0 & Ef).
    fold hi in E0, Ef. exists m0. split; [exact E0|].
    destruct (empty_scan_Ok _ _ _ E0) as (size & Hr0 & Hi0 & _).
    apply Forall_forall. intros p Hp. apply Hsafe.
    assert (Hall : forallb (safe n m0 (length (ranges m0)) hi) (p0 :: rest)
                   = true).
    { apply (for_each_safe n hi m0 _ m0 (same_geometry_refl m0)); [|eauto].
      intros Hh. now rewrite Hr0, Hi0, Hh, !length_replicate. }
    rewrite forallb_forall in Hall. apply Hall. now apply list_elem_of_In.
  - intros (m0 & E0 & Hall).
    destruct (empty_scan_Ok _ _ _ E0) as (size & Hr0 & Hi0 & _).
    destruct (proj2 (for_each_safe n hi m0 (p0 :: rest) m0
                       (same_geometry_refl m0)
                       ltac:(intros Hh; now rewrite Hr0, Hi0, Hh,
                                        !length_replicate)))
      as [s Hs].
    { apply forallb_forall. intros p Hp%list_elem_of_In. apply Hsafe.
      now apply (proj1 (Forall_forall _ _) Hall). }
    exists s. unfold ConvertLaserScan. fold hi. rewrite E0. cbn.
    cbn in Hs. now rewrite Hs.
  - intros Hno. unfold ConvertLaserScan in *. fold hi in Hno |- *.
    destruct (let* m := empty_scan n hi in _) as [s| |]; cbn; try reflexivity.
    now destruct (Hno s).
Qed.

(* ================================================================== *)
(** * Turns of the worker loop *)

Section Turns.
Context `{P : Platform}.

Lemma traverse_Ok {A B} (f : A -> result B) (l : list A) (r : list B) :
  traverse f l = Ok r <-> Forall2 (fun a b => f a = Ok b) l r.
Proof.
  revert r. induction l as [|a l IH]; intros r; cbn.
  - split; [intros [= <-]; constructor|now intros ->%Forall2_nil_inv_l].
  - split.
    + destruct (f a) as [b| |] eqn:Ea; cbn; try discriminate.
      destruct (traverse f l) as [bs| |]; cbn; try discriminate.
      intros [= <-]. constructor; [exact Ea|]. now apply IH.
    + intros (b & bs & Ea & Hbs & ->)%Forall2_cons_inv_l.
      rewrite Ea. cbn. apply IH in Hbs. now rewrite Hbs.
Qed.

Lemma ConvertPointCloud2_cases n pts :
  (ConvertPointCloud2 n pts = ([], Ok tt) /\ pts = [])
  \/ (exists f, ConvertPointCloud2 n pts = ([], f) /\ forall a, f <> Ok a)
  \/ exists c,
       ConvertPointCloud2 n pts = ([EvPublishCloud c], Ok tt)
       /\ cloud_header c
          = {| stamp := laserTime n; frame_id := target_frame_ n |}.
Proof.
  destruct pts as [|p0 rest]; [now left|right].
  rewrite ConvertPointCloud2_unfold.
  destruct (has_value (intensity p0)).
  - pose proof (traverse_cloud_point_outcome (p0 :: rest)) as H.
    destruct (forallb _ _).
    + right. destruct H as (rows & -> & _). cbn. eauto.
    + left. rewrite H. cbn. eexists. split; [reflexivity|discriminate].
  - left. eexists. split; [reflexivity|discriminate].
Qed.

Lemma ConvertLaserScan_cases n pts :
  (ConvertLaserScan n pts = ([], Ok tt) /\ pts = [])
  \/ (exists f, ConvertLaserScan n pts = ([], f) /\ forall a, f <> Ok a)
  \/ exists s,
       ConvertLaserScan n pts = ([EvPublishScan s], Ok tt)
       /\ scan_header s
          = {| stamp := laserTime n; frame_id := target_frame_ n |}.
Proof.
  destruct pts as [|p0 rest]; [now left|right].
  destruct (ConvertLaserScan n (p0 :: rest)) as [tr f] eqn:E.
  unfold ConvertLaserScan in E.
  destruct (let* m := empty_scan n _ in _) as [s| |] eqn:E1; cbn in E;
    injection E as <- <-.
  - right. exists s. split; [reflexivity|].
    destruct (empty_scan n _) as [m0| |] eqn:E0; cbn in E1; try discriminate.
    destruct (for_each_scalars n _ (p0 :: rest) m0 s E1) as (-> & _).
    revert E0. unfold empty_scan.
    destruct (ranges_size _); cbn; try discriminate. intros [= <-].
    now destruct (has_value _), (use_inf n).
  - left. eexists. split; [reflexivity|discriminate].
  - left. eexists. split; [reflexivity|discriminate].
Qed.

Lemma publish_points_cases n pts :
  let stamped := {| stamp := laserTime n; frame_id := target_frame_ n |} in
  (publish_points n pts = ([], Ok tt) /\ pts = [])
  \/ (exists f, publish_points n pts = ([], f) /\ forall a, f <> Ok a)
  \/ (exists c f, publish_points n pts = ([EvPublishCloud c], f)
                  /\ cloud_header c = stamped /\ forall a, f <> Ok a)
  \/ (exists c s,
        publish_points n pts = ([EvPublishCloud c; EvPublishScan s], Ok tt)
        /\ cloud_header c = stamped /\ scan_header s = stamped).
Proof.
  intros stamped. destruct pts as [|p0 rest]; [now left|right].
  unfold publish_points.
  destruct (ConvertPointCloud2_cases n (p0 :: rest))
    as [[_ [=]]|[(f & Ec & Hf)|(c & Ec & Hc)]]; rewrite Ec.
  - left. exists f. destruct f as [[]| |]; cbn;
      try (now destruct (Hf tt)); (split; [reflexivity|discriminate]).
  - right.
    destruct (ConvertLaserScan_cases n (p0 :: rest))
      as [[_ [=]]|[(f & Es & Hf)|(s & Es & Hs)]]; rewrite Es.
    + left. exists c, f. destruct f as [[]| |]; cbn;
        try (now destruct (Hf tt)); repeat split; try assumption;
        discriminate.
    + right. exists c, s. now repeat split.
Qed.

Lemma laser_merge_cycle_publish n evs points n' tr f :
  drain n = (evs, Ok (points, n')) ->
  publish_points n' points = (tr, f) ->
  laser_merge_cycle n
  = (evs ++ tr ++ match f with Ok _ => [EvSleep] | _ => [] end,
     match f with
     | Ok _ => Ok n'
     | Throw e => Throw e
     | Undefined => Undefined
     end).
Proof.
  intros Hd Hp. rewrite (laser_merge_cycle_spec n _ _ _ Hd).
  unfold bind at 1. unfold bind at 1. rewrite Hp.
  destruct f as [[]| |]; cbn; now rewrite ?app_nil_r.
Qed.

(** The turn after a turn that ended normally, when no message arrived. *)
Lemma laser_merge_cycle_idle n tr n' :
  laser_merge_cycle n = (tr, Ok n') ->
  n' = set_pointCloudBuffer [] (set_scanBuffer [] n)
  /\ laser_merge_cycle n' = ([EvLock; EvUnlock; EvSleep], Ok n').
Proof.
  intros H. destruct (drain n) as [evs [[points n1]| |]] eqn:Hd.
  - destruct (drain_Ok _ _ _ _ Hd) as (_ & -> & _).
    destruct (publish_points (set_pointCloudBuffer [] (set_scanBuffer [] n))
                points) as [tr1 f] eqn:Hp.
    rewrite (laser_merge_cycle_publish _ _ _ _ _ _ Hd Hp) in H.
    destruct f as [[]| |]; try discriminate.
    injection H as _ <-. split; [reflexivity|].
    unfold laser_merge_cycle. now rewrite drain_idle.
  - unfold laser_merge_cycle in H. rewrite Hd in H. discriminate.
  - unfold laser_merge_cycle in H. rewrite Hd in H. discriminate.
Qed.

End Turns.

(** X13.  A turn of the worker publishes at most one cloud and at most one
    scan, the cloud first, and never a scan without the cloud; both carry
    the time and the target frame of the node.  A turn that publishes
    nothing and ends normally had no point to publish, a turn that publishes
    the cloud alone does not end normally, and a turn that publishes both
    does. *)
Theorem a_turn_publishes_one_pair `{P : Platform} (n : laser_merger2) :
  let stamped := {| stamp := laserTime n; frame_id := target_frame_ n |} in
  let published :=
    filter (fun e => is_publish e = true) (laser_merge_cycle n).1 in
  (published = [] /\
     forall n', (laser_merge_cycle n).2 = Ok n' ->
       exists evs, drain n = (evs, Ok ([], n')))
  \/ (exists c, published = [EvPublishCloud c] /\ cloud_header c = stamped
               /\ forall n', (laser_merge_cycle n).2 <> Ok n')
  \/ (exists c s, published = [EvPublishCloud c; EvPublishScan s]
                 /\ cloud_header c = stamped /\ scan_header s = stamped
                 /\ exists n', (laser_merge_cycle n).2 = Ok n').
Proof.
  intros stamped published. subst published.
  pose proof (drain_no_publish n) as Hconv.
  destruct (drain n) as [evs [[points n1]|e|]] eqn:Hd; cbn [fst] in Hconv.
  - destruct (drain_Ok _ _ _ _ Hd) as (_ & -> & _).
    set (n' := set_pointCloudBuffer [] (set_scanBuffer [] n)) in *.
    destruct (publish_points n' points) as [tr f] eqn:Hp.
    rewrite (laser_merge_cycle_publish _ _ _ _ _ _ Hd Hp).
    cbn [fst snd]. rewrite !filter_app, Hconv. cbn [app].
    destruct (publish_points_cases n' points)
      as [[E ->]|[(f' & E & Hf)|[(c & f' & E & Hc & Hf)|(c & s & E & Hc & Hs)]]];
      rewrite Hp in E; injection E as -> ->.
    + left. split; [reflexivity|]. intros n0 [= <-]. eauto.
    + left. split; [now destruct f' as [[]| |]|].
      intros n0. destruct f' as [[]| |]; [now destruct (Hf tt)|discriminate..].
    + right. left. exists c. split; [|split; [exact Hc|]].
      * destruct f' as [[]| |]; [now destruct (Hf tt)|reflexivity..].
      * intros n0. destruct f' as [[]| |];
          [now destruct (Hf tt)|discriminate..].
    + right. right. exists c, s. repeat split; [exact Hc|exact Hs|eauto].
  - left. unfold laser_merge_cycle. rewrite Hd. cbn.
    split; [exact Hconv|discriminate].
  - left. unfold laser_merge_cycle. rewrite Hd. cbn.
    split; [exact Hconv|discriminate].
Qed.

(** X14.  A message is fused once.  A turn that ends normally leaves both
    buffers empty and the parameters, the tf2 buffer and the time of the node
    as they were, so that the next turn, when no message arrived in between,
    takes and releases the lock, publishes nothing and leaves the node as it
    is. *)
Theorem messages_are_fused_once `{P : Platform}
    (n n' : laser_merger2) (tr : list event) :
  laser_merge_cycle n = (tr, Ok n') ->
  n' = set_pointCloudBuffer [] (set_scanBuffer [] n)
  /\ scanBuffer n' = [] /\ pointCloudBuffer n' = []
  /\ laser_merge_cycle n' = ([EvLock; EvUnlock; EvSleep], Ok n').
Proof.
  intros H. destruct (laser_merge_cycle_idle _ _ _ H) as [-> Hidle].
  split; [reflexivity|]. split; [reflexivity|]. split; [reflexivity|].
  exact Hidle.
Qed.

(** X15.  The worker loop without new messages: when its first turn ends
    normally, every later turn only takes and releases the lock and sleeps,
    so nothing is published after the first turn; when its first turn
    fails, the loop stops there. *)
Theorem laser_merge_publishes_in_first_turn `{P : Platform}
    (n : laser_merger2) (tr : list event) (turns : nat) :
  (forall n', laser_merge_cycle n = (tr, Ok n') ->
     laser_merge (S turns) n
     = (tr ++ concat (replicate turns [EvLock; EvUnlock; EvSleep]), Ok n'))
  /\ (forall e, laser_merge_cycle n = (tr, Throw e) ->
        laser_merge (S turns) n = (tr, Throw e))
  /\ (laser_merge_cycle n = (tr, Undefined) ->
      laser_merge (S turns) n = (tr, Undefined)).
Proof.
  repeat split.
  - intros n' H.
    destruct (laser_merge_cycle_idle _ _ _ H) as [_ Hidle].
    cbn [laser_merge]. rewrite H. cbn [bind].
    assert (Hrest : forall k, laser_merge k n'
              = (concat (replicate k [EvLock; EvUnlock; EvSleep]), Ok n')).
    { induction k as [|k IH]; [reflexivity|].
      cbn [laser_merge]. rewrite Hidle. cbn [bind]. now rewrite IH. }
    now rewrite Hrest.
  - intros e H. cbn [laser_merge]. now rewrite H.
  - intros H. cbn [laser_merge]. now rewrite H.
Qed.

(** X16.  The block under the lock takes the lock and converts every
    buffered scan, in increasing order of frame; the conversion of a scan
    cannot fail.  Then it converts the buffered clouds in the same order.
    When every cloud is converted it releases the lock and returns the
    points of the scans followed by the points of the clouds, with both
    buffers empty.  When the conversion of a cloud throws, the block ends
    with that [runtime_error] at the first such cloud, before the lock is
    released: the clouds behind it are not converted. *)
Theorem drain_fuses_scans_then_clouds `{P : Platform} (n : laser_merger2) :
  let scans := EvScanToPoints <$> (scanBuffer n).*1 in
  (exists pss,
     Forall2 (fun c ps => pointCloudtoPointXYZ n c = Ok ps)
       (pointCloudBuffer n).*2 pss
     /\ drain n
        = ([EvLock] ++ scans
             ++ (EvCloudToPoints <$> (pointCloudBuffer n).*1) ++ [EvUnlock],
           Ok (concat (scantoPointXYZ n <$> (scanBuffer n).*2) ++ concat pss,
               set_pointCloudBuffer [] (set_scanBuffer [] n))))
  \/ (exists before k c after,
        pointCloudBuffer n = before ++ (k, c) :: after
        /\ Forall (fun c' => exists ps, pointCloudtoPointXYZ n c' = Ok ps)
             before.*2
        /\ pointCloudtoPointXYZ n c = Throw runtime_error
        /\ drain n
           = ([EvLock] ++ scans
                ++ (EvCloudToPoints <$> before.*1) ++ [EvCloudToPoints k],
              Throw runtime_error)).
Proof.
  intros scans.
  destruct (drain_cases n)
    as [(pss & Et & Hd)|(before & k & c & after & pss & Eb & Et & Ec & Hd)].
  - left. exists pss. split; [now apply traverse_Ok|exact Hd].
  - right. exists before, k, c, after. repeat split; try assumption.
    apply traverse_Ok in Et. clear -Et.
    induction Et as [|c' ps l l' H _ IH]; constructor; eauto.
Qed.




(* ================================================================== *)
(** * The further theorems on concrete inputs *)

Section MoreConcrete.
Import Examples.
#[local] Open Scope float_scope.

Lemma callbacks_keep_one_slot_per_frame_witness :
  sorted_buffer
    (scanBuffer (scanCallback (scan_of "front" [1] []) (default_node no_tf)).1).
Proof.
  exact (proj1 (proj1
    (callbacks_keep_one_slot_per_frame (default_node no_tf)
       (scan_of "front" [1] [])
       {| cloud_header := {| stamp := {| sec := 2; nanosec := 0 |};
                             frame_id := "camera" |};
          height := 1; width := 0; fields := ["x"; "y"; "z"];
          cloud_points := [] |}
       (SSorted_nil _) (SSorted_nil _)))).
Defined.

Lemma later_scan_replaces_earlier_witness :
  scanBuffer (scanCallback (scan_of "front" [2] [])
                (scanCallback (scan_of "front" [1] [])
                   (default_node no_tf)).1).1
  = scanBuffer (scanCallback (scan_of "front" [2] []) (default_node no_tf)).1.
Proof.
  apply (later_scan_replaces_earlier (default_node no_tf)
           (scan_of "front" [1] []) (scan_of "front" [2] [])).
  reflexivity.
Defined.

Lemma rgb_to_uint32_bytes_witness :
  rgb_to_uint32 255 128 1 = (255 * 65536 + 128 * 256 + 1)%Z.
Proof.
  apply (rgb_to_uint32_bytes 255 128 1); lia.
Defined.

Lemma published_ranges_come_from_points_witness :
  1 = @fill robot (window (-1) 1 0.5)
  \/ exists p,
       p ∈ @bin_hits robot (window (-1) 1 0.5)
             (@small_scan robot [infinity; infinity; 1; infinity] []) 2
             [pt 1 0 0 None; pt 2 0 0 None]
       /\ @in_view robot (window (-1) 1 0.5)
            (@small_scan robot [infinity; infinity; 1; infinity] []) p = true
       /\ 1 = @narrow robot (@hypot robot (x p) (y p)).
Proof.
  apply (@published_ranges_come_from_points robot (window (-1) 1 0.5)
           [pt 1 0 0 None; pt 2 0 0 None]
           (@small_scan robot [infinity; infinity; 1; infinity] []) 2 1).
  - vm_compute. reflexivity.
  - reflexivity.
Defined.

(** The point (0, 2), at the angle pi / 2, is outside the window [-1, 1]. *)
Lemma skipped_points_change_nothing_witness :
  @ConvertLaserScan robot (window (-1) 1 0.5)
    [pt 1 0 0 None; pt 0 2 0 None]
  = @ConvertLaserScan robot (window (-1) 1 0.5)
      (pt 1 0 0 None
       :: filter (fun p => @in_view robot (window (-1) 1 0.5)
                             (@small_scan robot
                                [infinity; infinity; infinity; infinity] [])
                             p = true)
            [pt 0 2 0 None]).
Proof.
  apply (@skipped_points_change_nothing robot (window (-1) 1 0.5)).
  vm_compute. reflexivity.
Defined.

Lemma published_scan_shape_witness :
  scan_header (@small_scan robot [infinity; infinity; 1; infinity] [])
  = {| stamp := laserTime (window (-1) 1 0.5);
       frame_id := target_frame_ (window (-1) 1 0.5) |}.
Proof.
  apply (@published_scan_shape robot (window (-1) 1 0.5)
           [pt 1 0 0 None; pt 2 0 0 None]).
  vm_compute. reflexivity.
Defined.

Lemma published_range_is_nearest_witness :
  exists c,
    ranges (@small_scan ideal [infinity; infinity; 1; infinity] []) !! 2%nat
    = Some c
    /\ Fp.le c (@narrow ideal (@hypot ideal (x (pt 2 0 0 None))
                                 (y (pt 2 0 0 None)))) = true
    /\ Fp.le c (@fill ideal (window (-1) 1 0.5)) = true.
Proof.
  apply (@published_range_is_nearest ideal (window (-1) 1 0.5)
           [pt 1 0 0 None; pt 2 0 0 None]).
  - intros a b H. exact H.
  - reflexivity.
  - vm_compute. reflexivity.
  - vm_compute. reflexivity.
  - apply bin_hits_elem. split.
    + right. left.
    + eexists. vm_compute. reflexivity.
  - vm_compute. reflexivity.
Defined.

Lemma messages_are_fused_once_witness :
  @laser_merge_cycle robot
    (set_laserTime {| sec := 1; nanosec := 0 |} (default_node tf_but_lost))
  = ([EvLock; EvUnlock; EvSleep],
     Ok (set_laserTime {| sec := 1; nanosec := 0 |}
           (default_node tf_but_lost))).
Proof.
  apply (@messages_are_fused_once robot
           (with_scans tf_but_lost [scan_of "lost" [1] []])
           (set_laserTime {| sec := 1; nanosec := 0 |}
              (default_node tf_but_lost))
           [EvLock; EvScanToPoints "lost"; EvUnlock; EvSleep]).
  vm_compute. reflexivity.
Defined.


(** A cloud without an intensity field stops the worker inside the block
    under the lock (line 207); a cloud with the field is fused and
    published. *)
Example cloud_without_intensity_stops_the_worker :
  @laser_merge_cycle robot
    (pointCloudCallback (cloud_of "camera" ["x"; "y"; "z"; "intensity"] [])
       (pointCloudCallback
          (cloud_of "base_link" ["x"; "y"; "z"]
             [{| c_x := 1; c_y := 0; c_z := 0; c_intensity := 0 |}])
          (with_scans tf_but_lost
             [scan_of "lost" [1] []; scan_of "front" [2] [7]])).1).1
  = ([EvLock; EvScanToPoints "front"; EvScanToPoints "lost";
      EvCloudToPoints "base_link"], Throw runtime_error).
Proof. vm_compute. reflexivity. Qed.

Example cloud_with_intensity_is_published :
  exists c s,
    @laser_merge_cycle robot
      (pointCloudCallback
         (cloud_of "base_link" ["x"; "y"; "z"; "intensity"]
            [{| c_x := 1; c_y := 0; c_z := 0; c_intensity := 9 |}])
         (default_node tf_but_lost)).1
    = ([EvLock; EvCloudToPoints "base_link"; EvUnlock;
        EvPublishCloud c; EvPublishScan s; EvSleep],
       Ok (set_laserTime {| sec := 2; nanosec := 0 |}
             (default_node tf_but_lost)))
    /\ cloud_points c
       = [{| c_x := 1; c_y := 0; c_z := 0; c_intensity := 9 |}]
    /\ ranges s !! 180%nat = Some 1
    /\ intensities s !! 180%nat = Some 9.
Proof.
  eexists _, _. split; [vm_compute; reflexivity|].
  repeat split; vm_compute; reflexivity.
Qed.

End MoreConcrete.
